(** * Orion decision scheduler (services/orion-decision)

    A shallow embedding of [orion_decision.scheduler.Scheduler] and of the
    command-line namespace of [orion_decision.cli], with the properties of
    the scheduling specification stated over it.

    Python objects are modelled as records, [None] as [option], the
    dictionary [service_build_tasks] as a [gmap], the ordered dictionary of
    services as the list of its values in iteration order, and exceptions
    together with the calls made to the remote queue by a small
    state-and-exception monad. *)

From Stdlib Require Import String Ascii ZArith NArith List Lia DecimalString DecimalN DecimalZ.
From stdpp Require Import base option list gmap strings.

Local Open Scope string_scope.

(** * The model *)

(** ** Python values *)

(** [TaskId]: the 22-character slug of [taskcluster.utils.slugId]. *)
Abbreviation TaskId := string.

(** A [pathlib.Path], as its sequence of components. *)
Abbreviation Path := (list string).

(** [Path.relative_to]: the remainder of [p] below [base]; [None] stands
    for the [ValueError] pathlib raises when [p] is not below [base]. *)
Fixpoint relative_to (p base : Path) : option Path :=
  match base with
  | [] => Some p
  | b :: base' =>
      match p with
      | [] => None
      | c :: p' => if bool_decide (c = b) then relative_to p' base' else None
      end
  end.

(** [str(path)] for a relative path. *)
Definition str_path (p : Path) : string :=
  match p with
  | [] => "."
  | _ => String.concat "/" p
  end.

(** [str(n)] for a non-negative [int]. *)
Definition str_int (n : N) : string := NilEmpty.string_of_uint (N.to_uint n).

(** What an f-string prints for a value that may be [None]. *)
Definition fmt_opt (o : option string) : string :=
  match o with
  | Some s => s
  | None => "None"
  end.

(** [needle in hay] on Python strings. *)
Fixpoint str_in (needle hay : string) : bool :=
  String.prefix needle hay ||
  match hay with
  | EmptyString => false
  | String _ rest => str_in needle rest
  end.

(** ** Time: [datetime], [timedelta], [relativedelta], [stringDate]

    The scheduler only adds the module constants to [now] and prints the
    result; the calendar arithmetic is the libraries' own. *)

(** A [timedelta], in seconds. *)
Record timedelta := { total_seconds : Z }.

(** A [relativedelta] of whole months. *)
Record relativedelta := { months : Z }.

Class TimeLib := {
  datetime : Type;
  add_timedelta : datetime → timedelta → datetime;
  add_relativedelta : datetime → relativedelta → datetime;
  stringDate : datetime → string
}.

(** ** Module constants ([orion_decision/__init__.py]) *)

Definition OWNER_EMAIL : string := "truber@mozilla.com".

Definition SOURCE_URL : string := "https://github.com/MozillaSecurity/orion".

Definition PROVISIONER_ID : string := "proj-fuzzing".

Definition WORKER_TYPE : string := "ci".

Definition DEADLINE : timedelta := {| total_seconds := 2 * 3600 |}.

Definition MAX_RUN_TIME : timedelta := {| total_seconds := 1 * 3600 |}.

Definition ARTIFACTS_EXPIRE : relativedelta := {| months := 6 |}.

(** ** Services and events *)

(** A [Service] of the catalog, with the attributes the scheduler reads. *)
Record Service := {
  name : string;
  context : Path;
  dockerfile : Path;
  service_deps : list string;
  dirty : bool
}.

(** [Services]: a dictionary from service name to [Service]; the list holds
    its values in iteration order, each stored under its [name]. *)
Abbreviation Services := (list Service).

(** [self.services[key]]; [None] stands for [KeyError]. *)
Definition services_get (services : Services) (key : string) : option Service :=
  List.find (λ s, bool_decide (name s = key)) services.

(** [service.dirty = True]. *)
Definition set_dirty (s : Service) : Service :=
  {| name := name s; context := context s; dockerfile := dockerfile s;
     service_deps := service_deps s; dirty := true |}.

(** A [GithubEvent], with the attributes the scheduler reads;
    [changed_paths] is what [list_changed_paths()] returns. *)
Record GithubEvent := {
  branch : option string;
  pull_request : option N;
  commit : string;
  commit_message : string;
  clone_url : string;
  changed_paths : list Path
}.

(** ** Task definitions sent to the queue *)

Record Artifact := {
  art_expires : string;
  art_path : string;
  art_type : string
}.

Record Payload := {
  artifacts : option (list (string * Artifact));
  command : list string;
  env : list (string * option string);
  features : list (string * bool);
  image : string;
  maxRunTime : Z
}.

Record Metadata := {
  meta_description : string;
  meta_name : string;
  meta_owner : string;
  meta_source : string
}.

Record Task := {
  taskGroupId : option string;
  dependencies : list TaskId;
  created : string;
  deadline : string;
  provisionerId : string;
  workerType : string;
  payload : Payload;
  routes : option (list string);
  scopes : list string;
  metadata : Metadata
}.

(** ** The remote queue and the run-time state *)

Inductive Exception :=
  | TaskclusterFailure
  | KeyError (key : string)
  | ValueError
  | CatalogError.

(** One [queue.createTask(task_id, task)] call and whether the queue
    accepted it. *)
Record Call := {
  call_id : TaskId;
  call_task : Task;
  call_ok : bool
}.

(** Taskcluster as the scheduler sees it: [slug_supply n] is what the
    [n]-th call of [slugId()] returns, and [queue_accepts] is the queue's
    answer to a creation request given the calls made so far. *)
Class Taskcluster := {
  slug_supply : nat → TaskId;
  queue_accepts : list Call → TaskId → Task → bool
}.

Record World := {
  slug_calls : nat;
  queue_calls : list Call
}.

Inductive Result (A : Type) :=
  | Ok (a : A)
  | Raise (e : Exception).

Arguments Ok {A} a.

Arguments Raise {A} e.

Definition M (A : Type) : Type := World → Result A * World.

#[export] Instance M_ret : MRet M := λ A a w, (Ok a, w).

#[export] Instance M_bind : MBind M := λ A B f m w,
  match m w with
  | (Ok a, w') => f a w'
  | (Raise e, w') => (Raise e, w')
  end.

Definition raise {A} (e : Exception) : M A := λ w, (Raise e, w).

(** A dictionary or attribute lookup that may raise. *)
Definition lookup_or_raise {A} (o : option A) (e : Exception) : M A :=
  match o with
  | Some a => mret a
  | None => raise e
  end.

(** [slugId()]. *)
Definition slugId `{Taskcluster} : M TaskId := λ w,
  (Ok (slug_supply (slug_calls w)),
   {| slug_calls := S (slug_calls w); queue_calls := queue_calls w |}).

(** [queue.createTask(task_id, task)]: the call is made, and raises
    [TaskclusterFailure] when the queue refuses it. *)
Definition createTask `{Taskcluster} (task_id : TaskId) (task : Task) : M unit := λ w,
  let ok := queue_accepts (queue_calls w) task_id task in
  let w' := {| slug_calls := slug_calls w;
               queue_calls := queue_calls w ++ [ {| call_id := task_id; call_task := task; call_ok := ok |} ] |} in
  if ok then (Ok tt, w') else (Raise TaskclusterFailure, w').

(** A [for] loop with loop-carried locals. *)
Fixpoint for_each {A B} (body : B → A → M B) (acc : B) (l : list A) : M B :=
  match l with
  | [] => mret acc
  | x :: l' => acc' ← body acc x; for_each body acc' l'
  end.

(** ** The scheduler *)

Record Scheduler `{TimeLib} := {
  github_event : GithubEvent;
  now : datetime;
  task_group : option string;
  docker_secret : option string;
  push_branch : string;
  services : Services
}.

(** The locals [build_tasks_created] and [push_tasks_created]. *)
Record Counts := {
  build_tasks_created : nat;
  push_tasks_created : nat
}.

Section SchedulerMethods.
Context `{TimeLib} `{Taskcluster}.

(** [{service: slugId() for service in self.services}], filling [acc]. *)
Fixpoint alloc_build_tasks (acc : gmap string TaskId) (keys : list string)
  : M (gmap string TaskId) :=
  match keys with
  | [] => mret acc
  | k :: keys' => id ← slugId; alloc_build_tasks (<[k:=id]> acc) keys'
  end.

(** [[service_build_tasks[dep] for dep in service.service_deps
      if self.services[dep].dirty]]. *)
Fixpoint dirty_dep_tasks (svcs : Services) (service_build_tasks : gmap string TaskId)
    (deps : list string) : M (list TaskId) :=
  match deps with
  | [] => mret []
  | dep :: deps' =>
      s ← lookup_or_raise (services_get svcs dep) (KeyError dep);
      if dirty s then
        id ← lookup_or_raise (service_build_tasks !! dep) (KeyError dep);
        ids ← dirty_dep_tasks svcs service_build_tasks deps';
        mret (id :: ids)
      else dirty_dep_tasks svcs service_build_tasks deps'
  end.

Definition index_prefix (service : Service) : string :=
  "index.project.fuzzing.orion." ++ name service.

Definition build_index (evt : GithubEvent) (service : Service) : string :=
  match pull_request evt with
  | Some pr => index_prefix service ++ ".pull_request." ++ str_int pr
  | None => index_prefix service ++ "." ++ fmt_opt (branch evt)
  end.

Definition rev_index (evt : GithubEvent) (service : Service) : string :=
  index_prefix service ++ ".rev." ++ commit evt.

Definition build_task (self : Scheduler) (service : Service)
    (dep_tasks : list TaskId) (dockerfile_rel : Path) : Task :=
  {| taskGroupId := task_group self;
     dependencies := dep_tasks;
     created := stringDate (now self);
     deadline := stringDate (add_timedelta (now self) DEADLINE);
     provisionerId := PROVISIONER_ID;
     workerType := WORKER_TYPE;
     payload :=
       {| artifacts := Some
            [ ("public/" ++ name service ++ ".tar",
               {| art_expires := stringDate (add_relativedelta (now self) ARTIFACTS_EXPIRE);
                  art_path := "/image.tar";
                  art_type := "file" |}) ];
          command := [ "build.sh" ];
          env :=
            [ ("IMAGE_NAME", Some (name service));
              ("DOCKERFILE", Some (str_path dockerfile_rel));
              ("ARCHIVE_PATH", Some "/image.tar");
              ("GIT_REPOSITORY", Some (clone_url (github_event self)));
              ("GIT_REVISION", Some (commit (github_event self)));
              ("LOAD_DEPS", Some (match dep_tasks with [] => "0" | _ => "1" end)) ];
          features := [ ("privileged", true) ];
          image := "mozillasecurity/taskboot:latest";
          maxRunTime := total_seconds MAX_RUN_TIME |};
     routes := Some [ rev_index (github_event self) service;
                      build_index (github_event self) service ];
     scopes := [ "docker-worker:capability:privileged";
                 "queue:route:index.project.fuzzing.orion.*" ];
     metadata :=
       {| meta_description := "Build the docker image for " ++ name service ++ " tasks";
          meta_name := "Orion " ++ name service ++ " docker build";
          meta_owner := OWNER_EMAIL;
          meta_source := SOURCE_URL |} |}.

Definition push_task (self : Scheduler) (service : Service) (build_id : TaskId) : Task :=
  {| taskGroupId := task_group self;
     dependencies := [ build_id ];
     created := stringDate (now self);
     deadline := stringDate (add_timedelta (now self) DEADLINE);
     provisionerId := PROVISIONER_ID;
     workerType := WORKER_TYPE;
     payload :=
       {| artifacts := None;
          command := [ "taskboot"; "push-artifact" ];
          env := [ ("TASKCLUSTER_SECRET", docker_secret self) ];
          features := [ ("taskclusterProxy", true) ];
          image := "mozillasecurity/taskboot:latest";
          maxRunTime := total_seconds MAX_RUN_TIME |};
     routes := None;
     scopes := [ "secrets:get:" ++ fmt_opt (docker_secret self) ];
     metadata :=
       {| meta_description := "Publish the docker image for " ++ name service ++ " tasks";
          meta_name := "Orion " ++ name service ++ " docker push";
          meta_owner := OWNER_EMAIL;
          meta_source := SOURCE_URL |} |}.

(** [should_push = self.github_event.branch == self.push_branch]. *)
Definition should_push (self : Scheduler) : bool :=
  bool_decide (branch (github_event self) = Some (push_branch self)).

(** The body of [for service in self.services.values()]. *)
Definition create_tasks_body (self : Scheduler)
    (service_build_tasks : gmap string TaskId) (n : Counts) (service : Service)
  : M Counts :=
  if negb (dirty service) then mret n
  else
    dep_tasks ← dirty_dep_tasks (services self) service_build_tasks (service_deps service);
    rel ← lookup_or_raise (relative_to (dockerfile service) (context service)) ValueError;
    task_id ← lookup_or_raise (service_build_tasks !! name service) (KeyError (name service));
    _ ← createTask task_id (build_task self service dep_tasks rel);
    let n := {| build_tasks_created := S (build_tasks_created n);
                push_tasks_created := push_tasks_created n |} in
    if negb (should_push self) then mret n
    else
      build_id ← lookup_or_raise (service_build_tasks !! name service) (KeyError (name service));
      task_id ← slugId;
      _ ← createTask task_id (push_task self service build_id);
      mret {| build_tasks_created := build_tasks_created n;
              push_tasks_created := S (push_tasks_created n) |}.

(** [Scheduler.create_tasks]; the result is the pair of counts of its
    closing log line. *)
Definition create_tasks (self : Scheduler) : M Counts :=
  service_build_tasks ← alloc_build_tasks ∅ (map name (services self));
  for_each (create_tasks_body self service_build_tasks)
    {| build_tasks_created := 0; push_tasks_created := 0 |} (services self).

End SchedulerMethods.

(** ** Dirtiness propagation *)

(** [Services.mark_changed_dirty] lives in [orion_decision/orion.py], which
    is not part of the sources at hand; the definitions of this part follow
    section 4.2 (DirtinessPropagator) and the [unitsOwningPath] query of
    section 4.1 of the specification. *)

(** Modelled from the spec: the ownership test of [orion.py] is missing; a
    unit owns a path when the path lies under its build context. *)
Definition owns (s : Service) (p : Path) : bool :=
  bool_decide (is_Some (relative_to p (context s))).

(** Modelled from the spec: [unitsOwningPath(path)] of the missing
    [Services] class, the names of the units that own [p]. *)
Definition unitsOwningPath (svcs : Services) (p : Path) : list string :=
  map name (filter (λ s, owns s p = true) svcs).

(** Modelled from the spec: step 1 of the missing [mark_changed_dirty];
    for each changed path, the units [unitsOwningPath] names are set
    dirty. *)
Definition mark_named (names : list string) (svcs : Services) : Services :=
  map (λ s, if bool_decide (name s ∈ names) then set_dirty s else s) svcs.

(** Modelled from the spec: step 1 of the missing [mark_changed_dirty],
    over all changed paths. *)
Definition mark_owners (svcs : Services) (paths : list Path) : Services :=
  fold_left (λ cat p, mark_named (unitsOwningPath cat p) cat) paths svcs.

(** Modelled from the spec: step 2 of the missing [mark_changed_dirty];
    the direct dependents of [u], the units whose [dependsOn] includes [u],
    are set dirty. *)
Definition mark_dependents (u : string) (svcs : Services) : Services :=
  map (λ d, if bool_decide (u ∈ service_deps d) then set_dirty d else d) svcs.

(** Modelled from the spec: one scan of step 2 of the missing
    [mark_changed_dirty], over the units at positions [i], [i+1], ...,
    [i+n-1]; the flags are updated in place, so a unit made dirty early in
    the pass already marks its own dependents later in the same pass. *)
Fixpoint scan (n i : nat) (svcs : Services) : Services :=
  match n with
  | 0 => svcs
  | S n' =>
      let svcs' :=
        match svcs !! i with
        | Some u => if dirty u then mark_dependents (name u) svcs else svcs
        | None => svcs
        end in
      scan n' (S i) svcs'
  end.

(** Modelled from the spec: a full pass of step 2 of the missing
    [mark_changed_dirty] scans all units. *)
Definition full_pass (svcs : Services) : Services := scan (length svcs) 0 svcs.

(** Modelled from the spec: the loop of step 2 of the missing
    [mark_changed_dirty], repeated until no unit changes state in a full
    pass. *)
Fixpoint propagate (fuel : nat) (svcs : Services) : Services :=
  match fuel with
  | 0 => svcs
  | S fuel' =>
      let svcs' := full_pass svcs in
      if bool_decide (map dirty svcs' = map dirty svcs) then svcs'
      else propagate fuel' svcs'
  end.

(** Modelled from the spec: [Services.mark_changed_dirty] of the missing
    [orion.py], the [markDirty(catalog, changedPaths)] of section 4.2.
    Every pass but the last makes at least one unit dirty, so one more pass
    than there are units suffices (see [propagate_fixed_point]). *)
Definition mark_changed_dirty (svcs : Services) (paths : list Path) : Services :=
  let marked := mark_owners svcs paths in
  propagate (S (length marked)) marked.

(** The dependency relation between units of a catalog, and its
    transitive closure. *)
Definition depends_on (svcs : Services) (d u : Service) : Prop :=
  d ∈ svcs ∧ u ∈ svcs ∧ name u ∈ service_deps d.

Inductive transitive_dependent (svcs : Services) : Service → Service → Prop :=
  | td_direct d u : depends_on svcs d u → transitive_dependent svcs d u
  | td_step d m u :
      depends_on svcs d m → transitive_dependent svcs m u →
      transitive_dependent svcs d u.

(** ** [Scheduler.mark_services_for_rebuild] and [Scheduler.main] *)

Definition with_services `{TimeLib} (self : Scheduler) (svcs : Services) : Scheduler :=
  {| github_event := github_event self; now := now self;
     task_group := task_group self; docker_secret := docker_secret self;
     push_branch := push_branch self; services := svcs |}.

Definition mark_services_for_rebuild `{TimeLib} (self : Scheduler) : Scheduler :=
  if str_in "/force-rebuild" (commit_message (github_event self)) then
    with_services self (map set_dirty (services self))
  else
    with_services self
      (mark_changed_dirty (services self) (changed_paths (github_event self))).

(** The collaborators of [main] that are not part of the scheduler:
    [GithubEvent.from_taskcluster(action, event)] and the
    [Services(github_event.repo.path)] constructor; [None] stands for the
    [CatalogError] of a catalog that cannot be loaded. *)
Class Collaborators := {
  webhook : Type;
  from_taskcluster : string → webhook → GithubEvent;
  load_services : GithubEvent → option Services
}.

(** The [argparse.Namespace] returned by [cli.parse_args]. *)
Record Namespace `{TimeLib} `{Collaborators} := {
  args_log_level : Z;
  args_task_group : option string;
  args_push_branch : string;
  args_docker_hub_secret : option string;
  args_github_event : webhook;
  args_github_action : string;
  args_now : datetime;
  args_dry_run : bool
}.

(** [Scheduler.main(args)]: the shell return code, or the exception that
    escapes it ([evt.cleanup()] only removes the checkout). *)
Definition main `{TimeLib} `{Taskcluster} `{Collaborators} (args : Namespace) : M Z :=
  let evt := from_taskcluster (args_github_action args) (args_github_event args) in
  svcs ← lookup_or_raise (load_services evt) CatalogError;
  let sched :=
    {| github_event := evt; now := args_now args;
       task_group := args_task_group args;
       docker_secret := args_docker_hub_secret args;
       push_branch := args_push_branch args; services := svcs |} in
  let sched := mark_services_for_rebuild sched in
  _ ← create_tasks sched;
  mret 0%Z.

(** The status [sys.exit(Scheduler.main(args))] leaves: the return code, or
    1 when an exception escapes. *)
Definition exit_status (r : Result Z) : Z :=
  match r with
  | Ok n => n
  | Raise _ => 1
  end.

Definition initial_world : World := {| slug_calls := 0; queue_calls := [] |}.

(** ** Trigger events *)

(** Modelled from the spec: the [GithubEvent] class lives in
    [orion_decision/git.py], which is not part of the sources at hand;
    section 3 gives the three variants of a trigger event and the fields
    each one carries. *)
Inductive TriggerEvent :=
  | Push (branch commit commitMessage : string)
         (changedPaths : list Path) (cloneURL : string)
  | PullRequest (number : N) (commit : string)
         (changedPaths : list Path) (cloneURL : string)
  | Release (branch commit commitMessage : string)
         (changedPaths : list Path) (cloneURL : string) (tag : string).

(** Modelled from the spec: the attributes of the missing [GithubEvent]
    that the scheduler reads, for each variant of section 3; a pull request
    carries neither a branch nor a commit message. *)
Definition event_of (e : TriggerEvent) : GithubEvent :=
  match e with
  | Push b c m ps u =>
      {| branch := Some b; pull_request := None; commit := c;
         commit_message := m; clone_url := u; changed_paths := ps |}
  | PullRequest n c ps u =>
      {| branch := None; pull_request := Some n; commit := c;
         commit_message := ""; clone_url := u; changed_paths := ps |}
  | Release b c m ps u _ =>
      {| branch := Some b; pull_request := None; commit := c;
         commit_message := m; clone_url := u; changed_paths := ps |}
  end.

(** ** Reading the calls made to the queue *)

Definition is_build_task (t : Task) : Prop := command (payload t) = [ "build.sh" ].

Definition is_push_task (t : Task) : Prop :=
  command (payload t) = [ "taskboot"; "push-artifact" ].

#[export] Instance is_build_task_dec t : Decision (is_build_task t).
Proof. unfold is_build_task. apply _. Defined.

#[export] Instance is_push_task_dec t : Decision (is_push_task t).
Proof. unfold is_push_task. apply _. Defined.

(** The unit a task was made for: its [IMAGE_NAME] for a build task; a
    publish task names its unit only in its metadata. *)
Definition task_env (t : Task) (var : string) : option (option string) :=
  snd <$> List.find (λ kv, bool_decide (fst kv = var)) (env (payload t)).

(** The calls of a run started in the initial world, and its outcome. *)
Definition run {A} (m : M A) : Result A * World := m initial_world.

Definition calls_of {A} (m : M A) : list Call := queue_calls (snd (run m)).

Definition outcome_of {A} (m : M A) : Result A := fst (run m).

(** * Sample instances and catalogs *)

(** A clock for the examples: seconds since the epoch, thirty-day months,
    timestamps printed in decimal. *)
Definition seconds_clock : TimeLib :=
  {| datetime := Z;
     add_timedelta d t := (d + total_seconds t)%Z;
     add_relativedelta d r := (d + months r * (30 * 86400))%Z;
     stringDate d := str_int (Z.to_N d) |}.

Definition numbered_slug (n : nat) : TaskId := "slug" ++ str_int (N.of_nat n).

(** A queue that accepts every task. *)
Definition accepting_queue : Taskcluster :=
  {| slug_supply := numbered_slug; queue_accepts _ _ _ := true |}.

(** A queue that refuses exactly the task submitted under [bad]. *)
Definition refusing_queue (bad : TaskId) : Taskcluster :=
  {| slug_supply := numbered_slug;
     queue_accepts _ task_id _ := negb (bool_decide (task_id = bad)) |}.

Definition unit_ (n : string) (deps : list string) (d : bool) : Service :=
  {| name := n; context := [ "services"; n ];
     dockerfile := [ "services"; n; "Dockerfile" ];
     service_deps := deps; dirty := d |}.

Definition sample_scheduler (evt : GithubEvent) (secret : option string)
    (svcs : Services) : @Scheduler seconds_clock :=
  @Build_Scheduler seconds_clock evt 1600000000%Z (Some "group") secret "master" svcs.

(** Collaborators for the examples: the event and the catalog are given. *)
Definition given (evt : GithubEvent) (svcs : Services) : Collaborators :=
  {| webhook := unit;
     from_taskcluster _ _ := evt;
     load_services _ := Some svcs |}.

Definition sample_args (evt : GithubEvent) (svcs : Services) (dry : bool)
  : @Namespace seconds_clock (given evt svcs) :=
  @Build_Namespace seconds_clock (given evt svcs)
    20 (Some "group") "master" (Some "project/fuzzing/docker-hub") tt
    "github-push" 1600000000%Z dry.

Definition push_to (b msg : string) : GithubEvent :=
  event_of (Push b "0a1b2c" msg [] "https://github.com/MozillaSecurity/orion").

Definition unit_a : Service := unit_ "a" [] true.

Definition unit_b : Service := unit_ "b" [] true.

(** Two independent dirty units, on a branch that is not published. *)
Definition two_branches : @Scheduler seconds_clock :=
  sample_scheduler (push_to "dev" "update a and b") None [unit_a; unit_b].

(** A forced rebuild of two independent units. *)
Definition forced_rebuild_args (dry : bool) :=
  sample_args (push_to "dev" "bump /force-rebuild")
    [unit_ "a" [] false; unit_ "b" [] false] dry.

(** A pull request whose branch is named as the publish branch: the
    scheduler reads the attributes [branch] and [pull_request] of the event
    independently of each other. *)
Definition pull_request_on_master : GithubEvent :=
  {| branch := Some "master"; pull_request := Some 7%N; commit := "0a1b2c";
     commit_message := "update a";
     clone_url := "https://github.com/MozillaSecurity/orion";
     changed_paths := [] |}.

Definition pull_request_on_master_run : @Scheduler seconds_clock :=
  sample_scheduler pull_request_on_master (Some "project/fuzzing/docker-hub")
    [unit_a].

Definition pull_request_7 : TriggerEvent :=
  PullRequest 7 "0a1b2c" [] "https://github.com/MozillaSecurity/orion".

Definition pull_request_run : @Scheduler seconds_clock :=
  sample_scheduler (event_of pull_request_7) (Some "project/fuzzing/docker-hub")
    [unit_a].

Definition forced_rebuild : @Scheduler seconds_clock :=
  sample_scheduler (push_to "dev" "bump /force-rebuild") None
    [unit_ "a" [] false; unit_ "b" [ "a" ] false].

(** The catalog of the specification's scenarios: [c] depends on [b], which
    depends on [a]; here every unit is dirty. *)
Definition chain : Services :=
  [unit_ "a" [] true; unit_ "b" [ "a" ] true; unit_ "c" [ "b" ] true].

Definition publishing_chain : @Scheduler seconds_clock :=
  sample_scheduler (push_to "master" "update a")
    (Some "project/fuzzing/docker-hub") chain.

(** A push to the publish branch, with no credential reference given. *)
Definition missing_secret : @Scheduler seconds_clock :=
  sample_scheduler (push_to "master" "update a") None [unit_a].

(** Unit [a] depends on unit [b], which comes after it in the catalog. *)
Definition late_dependency : @Scheduler seconds_clock :=
  sample_scheduler (push_to "dev" "update b") None
    [unit_ "a" [ "b" ] true; unit_ "b" [] true].

(** The catalog of the scenarios before any marking. *)
Definition clean_chain : Services :=
  [unit_ "a" [] false; unit_ "b" [ "a" ] false; unit_ "c" [ "b" ] false].

(** A push to [dev] that changed one file of the build context of [a]. *)
Definition change_of_a : GithubEvent :=
  event_of (Push "dev" "0a1b2c" "update a" [[ "services"; "a"; "setup.sh" ]]
              "https://github.com/MozillaSecurity/orion").

Definition change_of_a_args : @Namespace seconds_clock (given change_of_a clean_chain) :=
  sample_args change_of_a clean_chain false.

(** * Runs of the loop, step by step *)

Local Open Scope list_scope.

Section Runs.
Context `{TimeLib} `{Taskcluster}.

(** ** One iteration *)

Definition add_call (w : World) (c : Call) : World :=
  {| slug_calls := slug_calls w; queue_calls := queue_calls w ++ [c] |}.

Definition took_slug (w : World) : World :=
  {| slug_calls := S (slug_calls w); queue_calls := queue_calls w |}.

Definition count_build (n : Counts) : Counts :=
  {| build_tasks_created := S (build_tasks_created n);
     push_tasks_created := push_tasks_created n |}.

Definition count_push (n : Counts) : Counts :=
  {| build_tasks_created := build_tasks_created n;
     push_tasks_created := S (push_tasks_created n) |}.

(** The build call of [service] in world [w], and the publish call that
    follows it. *)
Definition build_call (self : Scheduler) (service : Service) (deps : list TaskId)
    (rel : Path) (bid : TaskId) (w : World) : Call :=
  let t := build_task self service deps rel in
  {| call_id := bid; call_task := t; call_ok := queue_accepts (queue_calls w) bid t |}.

Definition push_call (self : Scheduler) (service : Service) (bid : TaskId)
    (w : World) : Call :=
  let t := push_task self service bid in
  let pid := slug_supply (slug_calls w) in
  {| call_id := pid; call_task := t; call_ok := queue_accepts (queue_calls w) pid t |}.

(** The dirty dependencies of a unit, as the comprehension selects them. *)
Definition is_dirty (svcs : Services) (key : string) : bool :=
  match services_get svcs key with
  | Some s => dirty s
  | None => false
  end.

Definition dep_ids (svcs : Services) (sbt : gmap string TaskId) (deps : list string)
  : list TaskId :=
  omap (λ dep, sbt !! dep) (filter (λ dep, is_dirty svcs dep = true) deps).

(** What an iteration needs to reach its first [createTask]: every
    dependency names a unit of the catalog, with a build task id when that
    unit is dirty; the Dockerfile lies under the build context; the unit
    itself has a build task id. *)
Definition resolvable (svcs : Services) (sbt : gmap string TaskId)
    (deps : list string) : Prop :=
  Forall (λ dep, ∃ s', services_get svcs dep = Some s' ∧
                       (dirty s' = true → is_Some (sbt !! dep))) deps.

Definition ready (self : Scheduler) (sbt : gmap string TaskId) (s : Service) : Prop :=
  resolvable (services self) sbt (service_deps s) ∧
  is_Some (relative_to (dockerfile s) (context s)) ∧
  is_Some (sbt !! name s).

(** The possible courses of one iteration. *)
Inductive body_outcome (self : Scheduler) (sbt : gmap string TaskId)
    (n : Counts) (s : Service) (w : World) : Result Counts * World → Prop :=
  | bo_clean :
      dirty s = false →
      body_outcome self sbt n s w (Ok n, w)
  | bo_error e :
      dirty s = true → e ≠ TaskclusterFailure → ¬ ready self sbt s →
      body_outcome self sbt n s w (Raise e, w)
  | bo_build_refused rel bid :
      dirty s = true →
      relative_to (dockerfile s) (context s) = Some rel →
      sbt !! name s = Some bid →
      let cb := build_call self s (dep_ids (services self) sbt (service_deps s)) rel bid w in
      call_ok cb = false →
      body_outcome self sbt n s w (Raise TaskclusterFailure, add_call w cb)
  | bo_built rel bid :
      dirty s = true →
      relative_to (dockerfile s) (context s) = Some rel →
      sbt !! name s = Some bid →
      let cb := build_call self s (dep_ids (services self) sbt (service_deps s)) rel bid w in
      call_ok cb = true → should_push self = false →
      body_outcome self sbt n s w (Ok (count_build n), add_call w cb)
  | bo_push_refused rel bid :
      dirty s = true →
      relative_to (dockerfile s) (context s) = Some rel →
      sbt !! name s = Some bid →
      let cb := build_call self s (dep_ids (services self) sbt (service_deps s)) rel bid w in
      call_ok cb = true → should_push self = true →
      let cp := push_call self s bid (add_call w cb) in
      call_ok cp = false →
      body_outcome self sbt n s w
        (Raise TaskclusterFailure, add_call (took_slug (add_call w cb)) cp)
  | bo_pushed rel bid :
      dirty s = true →
      relative_to (dockerfile s) (context s) = Some rel →
      sbt !! name s = Some bid →
      let cb := build_call self s (dep_ids (services self) sbt (service_deps s)) rel bid w in
      call_ok cb = true → should_push self = true →
      let cp := push_call self s bid (add_call w cb) in
      call_ok cp = true →
      body_outcome self sbt n s w
        (Ok (count_push (count_build n)), add_call (took_slug (add_call w cb)) cp).

(** ** The loop as a step relation *)

(** The dictionary [alloc_build_tasks] returns when the next slug is the
    [k]-th. *)
Fixpoint build_ids (acc : gmap string TaskId) (k : nat) (keys : list string)
  : gmap string TaskId :=
  match keys with
  | [] => acc
  | key :: keys' => build_ids (<[key := slug_supply k]> acc) (S k) keys'
  end.

Definition after_alloc (w : World) (keys : list string) : World :=
  {| slug_calls := slug_calls w + length keys; queue_calls := queue_calls w |}.

Definition no_counts : Counts :=
  {| build_tasks_created := 0; push_tasks_created := 0 |}.

(** A run of the loop over the remaining services: it ends with the list,
    or at the first iteration that raises. *)
Inductive loop_outcome (self : Scheduler) (sbt : gmap string TaskId)
  : Counts → list Service → World → Result Counts * World → Prop :=
  | lo_done n w :
      loop_outcome self sbt n [] w (Ok n, w)
  | lo_raised n s l w e w' :
      body_outcome self sbt n s w (Raise e, w') →
      loop_outcome self sbt n (s :: l) w (Raise e, w')
  | lo_next n s l w n' w' res :
      body_outcome self sbt n s w (Ok n', w') →
      loop_outcome self sbt n' l w' res →
      loop_outcome self sbt n (s :: l) w res.

(** ** The calls of a run, unit by unit *)

(** [c] is a call the scheduler makes for unit [s]: a build task, or, when
    publishing, a publish task. *)
Definition scheduled_for (self : Scheduler) (s : Service) (c : Call) : Prop :=
  (∃ deps rel, call_task c = build_task self s deps rel) ∨
  (should_push self = true ∧ ∃ bid, call_task c = push_task self s bid).

(** Every call so far was accepted. *)
Definition settled (calls : list Call) : Prop :=
  Forall (λ c, call_ok c = true) calls.

(** The calls are all accepted, except that a run ending in
    [TaskclusterFailure] ends with the one refused call. *)
Definition fail_fast {A} (r : Result A) (calls : list Call) : Prop :=
  match r with
  | Ok _ => settled calls
  | Raise e =>
      (e ≠ TaskclusterFailure ∧ settled calls) ∨
      (e = TaskclusterFailure ∧
       ∃ pre c, calls = pre ++ [c] ∧ settled pre ∧ call_ok c = false)
  end.

(** The queue answered call [c]. *)
Definition answered (c : Call) : Prop :=
  ∃ before, call_ok c = queue_accepts before (call_id c) (call_task c).

(** [cb] is the build call of unit [s]. *)
Definition build_of (self : Scheduler) (sbt : gmap string TaskId) (s : Service)
    (cb : Call) : Prop :=
  sbt !! name s = Some (call_id cb) ∧
  ∃ rel, relative_to (dockerfile s) (context s) = Some rel ∧
    call_task cb = build_task self s (dep_ids (services self) sbt (service_deps s)) rel.

(** The calls of an iteration that ran to its end. *)
Inductive completed (self : Scheduler) (sbt : gmap string TaskId) (s : Service)
  : list Call → Prop :=
  | co_clean :
      dirty s = false → completed self sbt s []
  | co_built cb :
      dirty s = true → build_of self sbt s cb → call_ok cb = true →
      should_push self = false →
      completed self sbt s [cb]
  | co_pushed cb cp :
      dirty s = true → build_of self sbt s cb → call_ok cb = true →
      should_push self = true →
      call_task cp = push_task self s (call_id cb) → call_ok cp = true →
      completed self sbt s [cb; cp].

(** The calls of an iteration that raised [e]. *)
Inductive interrupted (self : Scheduler) (sbt : gmap string TaskId) (s : Service)
    (e : Exception) : list Call → Prop :=
  | in_error :
      dirty s = true → e ≠ TaskclusterFailure → ¬ ready self sbt s →
      interrupted self sbt s e []
  | in_build_refused cb :
      dirty s = true → build_of self sbt s cb →
      call_ok cb = false → answered cb → e = TaskclusterFailure →
      interrupted self sbt s e [cb]
  | in_push_refused cb cp :
      dirty s = true → build_of self sbt s cb → call_ok cb = true →
      should_push self = true →
      call_task cp = push_task self s (call_id cb) →
      call_ok cp = false → answered cp → e = TaskclusterFailure →
      interrupted self sbt s e [cb; cp].

(** The calls of one iteration, however it ends. *)
Inductive block_of (self : Scheduler) (sbt : gmap string TaskId) (s : Service)
  : list Call → Prop :=
  | bk_none : block_of self sbt s []
  | bk_build cb : build_of self sbt s cb → block_of self sbt s [cb]
  | bk_pair cb cp :
      build_of self sbt s cb → call_ok cb = true →
      call_task cp = push_task self s (call_id cb) →
      block_of self sbt s [cb; cp].

(** The counts after [k] more dirty units were handled. *)
Definition bump (n : Counts) (k : nat) (pushing : bool) : Counts :=
  {| build_tasks_created := build_tasks_created n + k;
     push_tasks_created := push_tasks_created n + (if pushing then k else 0) |}.

Definition dirty_count (l : list Service) : nat :=
  length (filter (λ s, dirty s = true) l).

(** The dirty units handled so far have their Build task accepted. *)
Definition accepted_builds (self : Scheduler) (sbt : gmap string TaskId)
    (handled : list Service) (calls : list Call) : Prop :=
  ∀ v, v ∈ handled → dirty v = true →
    ∃ cv, cv ∈ calls ∧ build_of self sbt v cv ∧ call_ok cv = true.

End Runs.

(** What loading the catalog guarantees (sections 3 and 4.1): no dangling
    dependency name, and a build file below the build context. *)
Definition closed_catalog (svcs : Services) : Prop :=
  Forall (λ s, Forall (λ dep, is_Some (services_get svcs dep)) (service_deps s) ∧
               is_Some (relative_to (dockerfile s) (context s))) svcs.

(** A queue that accepts whatever it is sent. *)
Definition always_accepts `{Taskcluster} : Prop :=
  ∀ before task_id task, queue_accepts before task_id task = true.

(** The scheduler [main] builds from its arguments and a loaded catalog. *)
Definition scheduler_of `{TimeLib} `{Collaborators} (args : Namespace)
    (svcs : Services) : Scheduler :=
  mark_services_for_rebuild
    {| github_event := from_taskcluster (args_github_action args) (args_github_event args);
       now := args_now args;
       task_group := args_task_group args;
       docker_secret := args_docker_hub_secret args;
       push_branch := args_push_branch args;
       services := svcs |}.

(** ** Marking as an order on catalogs *)

(** Marking only ever raises [dirty] flags. *)
Definition upgrade (s s' : Service) : Prop := s' = s ∨ s' = set_dirty s.

Definition upgrades (a b : Services) : Prop := Forall2 upgrade a b.

Definition clean_count (svcs : Services) : nat :=
  length (filter (λ s, dirty s = false) svcs).

(** Every direct dependent of a dirty unit is dirty. *)
Definition closed_under_dependents (svcs : Services) : Prop :=
  ∀ u d, u ∈ svcs → d ∈ svcs → dirty u = true →
    name u ∈ service_deps d → dirty d = true.

(** The units named by [unitsOwningPath] for [p] are dirty. *)
Definition named_owners_dirty (svcs : Services) (p : Path) : Prop :=
  ∀ s, s ∈ svcs → name s ∈ unitsOwningPath svcs p → dirty s = true.

(** * The statements of the specification *)

(** A build call made for unit [s]. *)
Definition build_call_of (s : Service) (c : Call) : Prop :=
  is_build_task (call_task c) ∧
  task_env (call_task c) "IMAGE_NAME" = Some (Some (name s)).

Definition attempted_build (calls : list Call) (s : Service) : Prop :=
  ∃ c, c ∈ calls ∧ build_call_of s c.

Definition refused_build (calls : list Call) (s : Service) : Prop :=
  ∃ c, c ∈ calls ∧ build_call_of s c ∧ call_ok c = false.

(** Section 4.4 on a submission failure: the dependents of the failed node
    are not submitted, the nodes of independent branches are, and the run
    is reported as failed. *)
Definition isolates_submission_failures `{TimeLib} `{Taskcluster}
    (self : Scheduler) : Prop :=
  let calls := calls_of (create_tasks self) in
  ∀ f, f ∈ services self → refused_build calls f →
    (∀ s, transitive_dependent (services self) s f → ¬ attempted_build calls s) ∧
    (∀ s, s ∈ services self → dirty s = true →
          ¬ transitive_dependent (services self) s f → attempted_build calls s) ∧
    (∃ e, outcome_of (create_tasks self) = Raise e).

(** Sections 4.4 and 5 on ordering: every dependency of a task was accepted
    before the task is submitted. *)
Definition dependencies_accepted_first (calls : list Call) : Prop :=
  ∀ pre c post, calls = pre ++ c :: post →
    ∀ d, d ∈ dependencies (call_task c) →
      ∃ c', c' ∈ pre ∧ call_id c' = d ∧ call_ok c' = true.

(** A Publish task is submitted right after its Build task was accepted. *)
Definition publish_follows_build (calls : list Call) : Prop :=
  ∀ pre c post, calls = pre ++ c :: post → is_push_task (call_task c) →
    ∃ pre' cb, pre = pre' ++ [cb] ∧ is_build_task (call_task cb) ∧
      call_ok cb = true ∧ dependencies (call_task c) = [call_id cb].

(** When the Build task of [u] is submitted, the Build task of every dirty
    dependency of [u] that comes before [u] in the catalog was accepted, and
    is among the dependencies of the task. *)
Definition earlier_units_accepted_first (svcs : Services) (calls : list Call) : Prop :=
  ∀ before u after pre c post,
    svcs = before ++ u :: after → calls = pre ++ c :: post → build_call_of u c →
    ∀ v, v ∈ before → dirty v = true → name v ∈ service_deps u →
      ∃ cv, cv ∈ pre ∧ build_call_of v cv ∧ call_ok cv = true ∧
            call_id cv ∈ dependencies (call_task c).

(** Section 7 on a missing credential: the run aborts with no call made. *)
Definition aborts_before_submission `{TimeLib} `{Taskcluster}
    (self : Scheduler) : Prop :=
  (∃ e, outcome_of (create_tasks self) = Raise e) ∧
  calls_of (create_tasks self) = [].

Definition missing_credential_aborts `{TimeLib} `{Taskcluster}
    (self : Scheduler) : Prop :=
  should_push self = true → docker_secret self = None →
  aborts_before_submission self.

(** A Publish task is among the calls of the run. *)
Definition publishes `{TimeLib} `{Taskcluster} (self : Scheduler) : Prop :=
  ∃ c, c ∈ calls_of (create_tasks self) ∧ is_push_task (call_task c).

(** The two calls a dirty unit gives rise to when publishing: its Build
    task, and a Publish task that depends on it alone, carries the
    credential reference and declares no artifact. *)
Definition publish_pair `{TimeLib} (self : Scheduler) (s : Service)
    (b : list Call) : Prop :=
  ∃ cb cp, b = [cb; cp] ∧ build_call_of s cb ∧
    is_push_task (call_task cp) ∧
    dependencies (call_task cp) = [call_id cb] ∧
    task_env (call_task cp) "TASKCLUSTER_SECRET" = Some (docker_secret self) ∧
    artifacts (payload (call_task cp)) = None.

(** The calls of a unit, with [ids] giving the Build task of each dirty
    unit: nothing for a clean unit; for a dirty one, a single Build task
    whose dependencies are the Build tasks of its dirty dependencies, in
    the order the unit lists them, and whose [LOAD_DEPS] tells whether
    there is any. *)
Definition build_block `{TimeLib} (self : Scheduler) (ids : gmap string TaskId)
    (s : Service) (b : list Call) : Prop :=
  if dirty s then
    ∃ cb rest, b = cb :: rest ∧ build_call_of s cb ∧
      Forall (λ c, ¬ is_build_task (call_task c)) rest ∧
      ids !! name s = Some (call_id cb) ∧
      Forall2 (λ dep d, ids !! dep = Some d)
        (filter (λ dep, is_dirty (services self) dep = true) (service_deps s))
        (dependencies (call_task cb)) ∧
      (task_env (call_task cb) "LOAD_DEPS" = Some (Some "1"%string)
       ↔ dependencies (call_task cb) ≠ []) ∧
      (task_env (call_task cb) "LOAD_DEPS" = Some (Some "0"%string)
       ↔ dependencies (call_task cb) = [])
  else b = [].

Definition with_changed_paths (evt : GithubEvent) (paths : list Path) : GithubEvent :=
  {| branch := branch evt; pull_request := pull_request evt; commit := commit evt;
     commit_message := commit_message evt; clone_url := clone_url evt;
     changed_paths := paths |}.

Definition with_event `{TimeLib} (self : Scheduler) (evt : GithubEvent) : Scheduler :=
  {| github_event := evt; now := now self; task_group := task_group self;
     docker_secret := docker_secret self; push_branch := push_branch self;
     services := services self |}.

(** The same command line with another value of [--dry-run]. *)
Definition with_dry_run `{TimeLib} `{Collaborators} (args : Namespace) (b : bool)
  : Namespace :=
  {| args_log_level := args_log_level args;
     args_task_group := args_task_group args;
     args_push_branch := args_push_branch args;
     args_docker_hub_secret := args_docker_hub_secret args;
     args_github_event := args_github_event args;
     args_github_action := args_github_action args;
     args_now := args_now args;
     args_dry_run := b |}.

(** * Further statements about the scheduler *)

(** What a run needs of the dirty units only: their dependencies name units
    of the catalog and their build file lies below their build context. *)
Definition dirty_units_closed (svcs : Services) : Prop :=
  Forall (λ s, dirty s = true →
               Forall (λ dep, is_Some (services_get svcs dep)) (service_deps s) ∧
               is_Some (relative_to (dockerfile s) (context s))) svcs.

(** The number of Build, and of Publish, tasks among the calls. *)
Definition build_calls (calls : list Call) : nat :=
  length (filter (λ c, is_build_task (call_task c)) calls).

Definition push_calls (calls : list Call) : nat :=
  length (filter (λ c, is_push_task (call_task c)) calls).

(** A clean unit with a dependency that is not in the catalog and a build
    file outside its context, next to a sound dirty unit. *)
Definition broken_clean_unit : Service :=
  {| name := "old"; context := [ "services"; "old" ];
     dockerfile := [ "elsewhere"; "Dockerfile" ];
     service_deps := [ "ghost" ]; dirty := false |}.

Definition with_broken_clean_unit : @Scheduler seconds_clock :=
  sample_scheduler (push_to "dev" "update a") None [broken_clean_unit; unit_a].

(** A dirty unit whose dependency is not in the catalog, after a sound
    dirty unit. *)
Definition dangling_dependency : @Scheduler seconds_clock :=
  sample_scheduler (push_to "dev" "update a and b") None
    [unit_a; unit_ "b" [ "ghost" ] true].

(** Nothing to rebuild in a catalog whose units are broken. *)
Definition nothing_dirty : @Scheduler seconds_clock :=
  sample_scheduler (push_to "master" "update README") None
    [broken_clean_unit; unit_ "b" [ "ghost" ] false].

(** The ids of the calls of [w] are slugs drawn at distinct draws: draws
    for the first [m] units of the catalog, reserved from draw [k0] on, or
    draws made after the [N] reserved ones. *)
Definition ids_fresh `{Taskcluster} (k0 N m : nat) (w : World) : Prop :=
  ∃ idxs, map call_id (queue_calls w) = map slug_supply idxs ∧
    NoDup idxs ∧
    Forall (λ j, (j < k0 + m)%nat ∨ (k0 + N ≤ j < slug_calls w)%nat) idxs ∧
    (k0 + N ≤ slug_calls w)%nat.

(** * The reduction monitor (services/grizzly-reduce-monitor)

    A shallow embedding of [grizzly_reduce_monitor.monitor]. The classes
    [CrashManager], [Taskcluster] and [ReductionWorkflow] come from
    [grizzly_reduce_monitor.common], which is not part of the sources at
    hand, and the task template [reduce.yaml] is a data file: the answers of
    CrashManager and of the queue, the random draws and the clock are taken
    as parameters, and a reduction task is represented by the values
    substituted into the template. A generator consumed by a [for] loop is
    written as a fold that runs the loop body at each [yield]. *)

Module Monitor.

(** ** Module constants; the qualities are those of
    [FuzzManagerReporter], as the comments of the module give them. *)

Definition GENERIC_PLATFORM : string := "linux".
Definition TC_QUEUES : list (string * string) :=
  [ ("linux", "grizzly-reduce-worker") ].
Definition TOOL_LIST_SECRET : string := "project/fuzzing/grizzly-reduce-tool-list".
Definition OWNER_EMAIL : string := "truber@mozilla.com".
Definition REDUCTION_MAX_RUN_TIME : timedelta := {| total_seconds := 6 * 3600 |}.
Definition REDUCTION_DEADLINE : timedelta := {| total_seconds := 1 * 86400 |}.
Definition REDUCTION_EXPIRES : timedelta := {| total_seconds := 2 * 7 * 86400 |}.
Definition SCHEDULER_ID : string := "fuzzing".
Definition PROVISIONER_ID : string := "proj-fuzzing".
Definition DESCRIPTION : string :=
  "*DO NOT EDIT* - This resource is configured automatically.

Fuzzing workers generated by decision task".
Definition QUAL_REPRODUCIBLE : Z := 4.
Definition QUAL_UNREDUCED : Z := 5.
Definition QUAL_REQUEST_SPECIFIC : Z := 6.
Definition QUAL_NOT_REPRODUCIBLE : Z := 10.

(** ** CrashManager entries *)

(** A crash entry and a bucket entry, with the keys the monitor reads. *)
Record Crash := {
  c_id : Z;
  c_tool : string;
  c_shortSignature : string;
  c_os : string;
  c_testcase_quality : Z
}.

Record Bucket := {
  b_id : Z;
  b_best_quality : Z;
  b_shortDescription : string
}.

Record ReducibleCrash := {
  crash : Z;
  bucket : option Z;
  tool : string;
  description : string;
  os : string;
  quality : Z
}.

(** The three queries the monitor sends to [list_crashes]. *)
Inductive CrashQuery :=
  | unbucketed (qualities : list Z) (tools : list string)
  | in_bucket (bucket_id : Z) (qualities : list Z) (tools : list string)
  | with_quality_not_on (quality : Z) (tools : list string) (os_names : list string).

(** ** Reduction tasks and the state of a run *)

(** The values substituted into the task template. *)
Record ReduceTask := {
  task_group : option string;
  now : string;
  deadline : string;
  expires : string;
  provisioner : string;
  scheduler : string;
  worker : string;
  max_run_time : Z;
  task_description : string;
  owner_email : string;
  crash_id : Z;
  os_name : string
}.

(** What a run does to the outside: a [queue.createTask] call with the
    queue's answer, or an [update_testcase_quality] call. *)
Inductive Event :=
  | Created (task_id : TaskId) (task : ReduceTask) (ok : bool)
  | Updated (crash : Z) (quality : Z).

Inductive Error :=
  | TaskclusterFailure
  | KeyError (key : string)
  | IndexError.

(** The surroundings of a run: the answers of CrashManager and of the queue
    given what was done so far, the [n]-th slug and the [n]-th reading of
    the clock, the [TASK_ID] of the environment, what the secret holds
    under the key [tools], if it has that key, and the random draws:
    whether the [n]-th draw, made by
    [random()], is below [RANDOMIZE_CRASH_SELECT], and the index
    [choice] picks at the [n]-th draw in a sequence of the given length. *)
Class Surroundings `{TimeLib} := {
  list_crashes : list Event → CrashQuery → list Crash;
  list_buckets : list Event → list string → list Bucket;
  queue_accepts : list Event → TaskId → ReduceTask → bool;
  slug_supply : nat → TaskId;
  utcnow : nat → datetime;
  TASK_ID : option string;
  secret_tools : option (option (list string));
  random_below_select : nat → bool;
  randbelow : nat → nat → nat
}.

Record World := {
  slugs : nat;
  clock : nat;
  draws : nat;
  events : list Event
}.

Inductive Result (A : Type) :=
  | Ok (a : A)
  | Raise (e : Error).
Arguments Ok {A} a.
Arguments Raise {A} e.

Definition M (A : Type) : Type := World → Result A * World.

#[export] Instance M_ret : MRet M := λ A a w, (Ok a, w).
#[export] Instance M_bind : MBind M := λ A B f m w,
  match m w with
  | (Ok a, w') => f a w'
  | (Raise e, w') => (Raise e, w')
  end.

Definition raise {A} (e : Error) : M A := λ w, (Raise e, w).

Fixpoint for_each {A B} (body : B → A → M B) (acc : B) (l : list A) : M B :=
  match l with
  | [] => mret acc
  | x :: l' => acc' ← body acc x; for_each body acc' l'
  end.

Definition log_event (e : Event) (w : World) : World :=
  {| slugs := slugs w; clock := clock w; draws := draws w;
     events := events w ++ [e] |}.

Section Effects.
Context `{Surroundings}.

Definition srv_list_crashes (q : CrashQuery) : M (list Crash) := λ w,
  (Ok (list_crashes (events w) q), w).

Definition srv_list_buckets (tools : list string) : M (list Bucket) := λ w,
  (Ok (list_buckets (events w) tools), w).

Definition update_testcase_quality (crash : Z) (quality : Z) : M unit := λ w,
  (Ok tt, log_event (Updated crash quality) w).

Definition slugId : M TaskId := λ w,
  (Ok (slug_supply (slugs w)),
   {| slugs := S (slugs w); clock := clock w; draws := draws w; events := events w |}).

Definition datetime_utcnow : M datetime := λ w,
  (Ok (utcnow (clock w)),
   {| slugs := slugs w; clock := S (clock w); draws := draws w; events := events w |}).

(** [random() < RANDOMIZE_CRASH_SELECT]. *)
Definition random_lt_select : M bool := λ w,
  (Ok (random_below_select (draws w)),
   {| slugs := slugs w; clock := clock w; draws := S (draws w); events := events w |}).

(** [choice(seq)]: [seq[randbelow(len(seq))]]. *)
Definition choice {A} (seq : list A) : M A := λ w,
  let w' := {| slugs := slugs w; clock := clock w; draws := S (draws w);
               events := events w |} in
  match seq !! randbelow (draws w) (length seq) with
  | Some x => (Ok x, w')
  | None => (Raise IndexError, w')
  end.

(** [queue.createTask(task_id, task)]. *)
Definition createTask (task_id : TaskId) (task : ReduceTask) : M unit := λ w,
  let ok := queue_accepts (events w) task_id task in
  let w' := log_event (Created task_id task ok) w in
  if ok then (Ok tt, w') else (Raise TaskclusterFailure, w').

(** [try: body  except TaskclusterFailure: handler]. *)
Definition except_TaskclusterFailure {A} (body handler : M A) : M A := λ w,
  match body w with
  | (Raise TaskclusterFailure, w') => handler w'
  | r => r
  end.

End Effects.

(** ** The functions of the module *)

(** [d[key]] and [key in d] on a dictionary kept in insertion order. *)
Definition dict_get {V} (d : list (string * V)) (key : string) : option V :=
  snd <$> List.find (λ kv, bool_decide (fst kv = key)) d.

Definition dict_mem {V} (d : list (string * V)) (key : string) : bool :=
  bool_decide (key ∈ map fst d).

(** [d[key] = v]: a known key keeps its place, a new one goes last. *)
Fixpoint dict_set {V} (d : list (string * V)) (key : string) (v : V)
  : list (string * V) :=
  match d with
  | [] => [ (key, v) ]
  | (k, v0) :: d' =>
      if bool_decide (k = key) then (k, v) :: d' else (k, v0) :: dict_set d' key v
  end.

(** [d[key].append(x)] for a key of [d]. *)
Definition dict_append {V} (d : list (string * list V)) (key : string) (x : V)
  : list (string * list V) :=
  map (λ kv, if bool_decide (fst kv = key) then (fst kv, snd kv ++ [x]) else kv) d.

(** [repr] of an [int], and of an [int] or [None]. *)
Definition repr_int (z : Z) : string := NilEmpty.string_of_int (Z.to_int z).

Definition repr_opt_int (o : option Z) : string :=
  match o with
  | Some z => repr_int z
  | None => "None"
  end.

(** The key [sig] of [_get_unique_crashes]. *)
Definition signature (reduction : ReducibleCrash) : string :=
  tool reduction ++ ":" ++ repr_opt_int (bucket reduction) ++ ":"
    ++ description reduction ++ ":" ++ repr_int (quality reduction).

Record ReductionMonitor := {
  dry_run : bool;
  tool_list : list string
}.

Section Functions.
Context `{Surroundings}.

Definition reducible_qualities : list Z := [ QUAL_UNREDUCED; QUAL_REQUEST_SPECIFIC ].

Definition of_unbucketed (c : Crash) : ReducibleCrash :=
  {| crash := c_id c; bucket := None; tool := c_tool c;
     description := c_shortSignature c; os := c_os c;
     quality := c_testcase_quality c |}.

Definition of_bucketed (b : Bucket) (c : Crash) : ReducibleCrash :=
  {| crash := c_id c; bucket := Some (b_id b); tool := c_tool c;
     description := b_shortDescription b; os := c_os c;
     quality := c_testcase_quality c |}.

(** [_fuzzmanager_get_crashes(tool_list)], with the body [yield_] of the
    loop that consumes it and the locals [s] of that loop. *)
Definition _fuzzmanager_get_crashes {S} (tools : list string)
    (yield_ : S → ReducibleCrash → M S) (s : S) : M S :=
  crashes ← srv_list_crashes (unbucketed reducible_qualities tools);
  s ← for_each (λ s c, yield_ s (of_unbucketed c)) s crashes;
  buckets ← srv_list_buckets tools;
  for_each
    (λ s b,
       if negb (bool_decide (b_best_quality b ∈ reducible_qualities)) then mret s
       else
         crashes ← srv_list_crashes (in_bucket (b_id b) reducible_qualities tools);
         for_each (λ s c, yield_ s (of_bucketed b c)) s crashes)
    s buckets.

(** The locals of [_get_unique_crashes]: [seen], [randomize_crashes], and
    the locals of the consuming loop. *)
Definition unique_step {S} (yield_ : S → string * ReducibleCrash → M S)
    (st : gset string * list (string * list ReducibleCrash) * S)
    (reduction : ReducibleCrash)
  : M (gset string * list (string * list ReducibleCrash) * S) :=
  let '(seen, randomize_crashes, s) := st in
  let sig := signature reduction in
  if bool_decide (sig ∉ seen) then
    randomize ← random_lt_select;
    if (randomize : bool) then
      mret ({[ sig ]} ∪ seen, dict_set randomize_crashes sig [ reduction ], s)
    else
      s ← yield_ s (sig, reduction);
      mret ({[ sig ]} ∪ seen, randomize_crashes, s)
  else if dict_mem randomize_crashes sig then
    mret (seen, dict_append randomize_crashes sig reduction, s)
  else mret st.

Definition pick_step {S} (yield_ : S → string * ReducibleCrash → M S)
    (s : S) (entry : string * list ReducibleCrash) : M S :=
  picked ← choice (snd entry);
  yield_ s (fst entry, picked).

(** [_get_unique_crashes(tool_list)], consumed by a loop of body [yield_]. *)
Definition _get_unique_crashes {S} (tools : list string)
    (yield_ : S → string * ReducibleCrash → M S) (s : S) : M S :=
  st ← _fuzzmanager_get_crashes tools (unique_step yield_) (∅, [], s);
  for_each (pick_step yield_) st.2 st.1.2.

(** [ReductionMonitor.__init__(dry_run, tool_list)]: without tools on the
    command line the list is read under the key [tools] of the secret,
    which raises [KeyError] when the secret has no such key. *)
Definition new (dry : bool) (tools : option (list string))
  : Result ReductionMonitor :=
  match tools with
  | None | Some [] =>
      match secret_tools with
      | None => Raise (KeyError "tools")
      | Some tools => Ok {| dry_run := dry; tool_list := default [] tools |}
      end
  | Some l => Ok {| dry_run := dry; tool_list := l |}
  end.

(** [ReductionMonitor.queue_reduction_task(os_name, crash_id)]. *)
Definition queue_reduction_task (self : ReductionMonitor) (os_name_ : string)
    (crash_id_ : Z) : M unit :=
  if dry_run self then mret tt
  else
    match dict_get TC_QUEUES os_name_ with
    | None => raise (KeyError os_name_)
    | Some dest_queue =>
        task_id ← slugId;
        now_ ← datetime_utcnow;
        let task :=
          {| task_group := TASK_ID;
             now := stringDate now_;
             deadline := stringDate (add_timedelta now_ REDUCTION_DEADLINE);
             expires := stringDate (add_timedelta now_ REDUCTION_EXPIRES);
             provisioner := PROVISIONER_ID;
             scheduler := SCHEDULER_ID;
             worker := dest_queue;
             max_run_time := total_seconds REDUCTION_MAX_RUN_TIME;
             task_description := DESCRIPTION;
             owner_email := OWNER_EMAIL;
             crash_id := crash_id_;
             os_name := os_name_ |} in
        created_ ← except_TaskclusterFailure
                     (_ ← createTask task_id task; mret true) (mret false);
        if (created_ : bool) then update_testcase_quality crash_id_ QUAL_REPRODUCIBLE
        else mret tt
    end.

(** The body of the second loop of [run]. *)
Definition run_body (self : ReductionMonitor) (_ : unit)
    (item : string * ReducibleCrash) : M unit :=
  let reduction := item.2 in
  if bool_decide (quality reduction = QUAL_UNREDUCED) then
    queue_reduction_task self GENERIC_PLATFORM (crash reduction)
  else if dict_mem TC_QUEUES (os reduction)
          && negb (bool_decide (os reduction = GENERIC_PLATFORM)) then
    queue_reduction_task self (os reduction) (crash reduction)
  else if negb (dry_run self) then
    update_testcase_quality (crash reduction) QUAL_NOT_REPRODUCIBLE
  else mret tt.

(** [ReductionMonitor.run()]. *)
Definition run (self : ReductionMonitor) : M Z :=
  crashes ← srv_list_crashes
    (with_quality_not_on QUAL_REQUEST_SPECIFIC (tool_list self)
       (filter (λ k, k ≠ GENERIC_PLATFORM) (map fst TC_QUEUES)));
  _ ← for_each
        (λ _ c, if negb (dry_run self)
                then update_testcase_quality (c_id c) QUAL_NOT_REPRODUCIBLE
                else mret tt)
        tt crashes;
  _ ← _get_unique_crashes (tool_list self) (run_body self) tt;
  mret 0%Z.

(** The loop body that only records what is yielded. *)
Definition collect {A} (acc : list A) (x : A) : M (list A) := mret (acc ++ [x]).

End Functions.

End Monitor.

(** ** Statements about the monitor *)

Module MonitorSpec.
Import Monitor.

Section Statements.
Context `{Surroundings}.

(** A reduction task as [queue_reduction_task] fills it in for the generic
    platform, at some reading [t] of the clock. *)
Definition generic_task (task : ReduceTask) : Prop :=
  worker task = "grizzly-reduce-worker"%string ∧
  os_name task = GENERIC_PLATFORM ∧
  task_group task = TASK_ID ∧
  provisioner task = PROVISIONER_ID ∧
  scheduler task = SCHEDULER_ID ∧
  max_run_time task = 21600%Z ∧
  ∃ t, now task = stringDate (utcnow t) ∧
       deadline task = stringDate (add_timedelta (utcnow t) REDUCTION_DEADLINE) ∧
       expires task = stringDate (add_timedelta (utcnow t) REDUCTION_EXPIRES).



(** Nothing was done to the outside between [w] and [w']. *)
Definition untouched (w w' : World) : Prop :=
  events w' = events w ∧ slugs w' = slugs w ∧ clock w' = clock w.

(** [choice] finds an element in every non-empty sequence. *)
Definition fair_choice : Prop :=
  ∀ k n, (0 < n)%nat → (randbelow k n < n)%nat.

(** The crashes [_fuzzmanager_get_crashes] yields when CrashManager answers
    as it does after [evs]. *)
Definition crash_stream (tools : list string) (evs : list Event)
  : list ReducibleCrash :=
  map of_unbucketed (list_crashes evs (unbucketed reducible_qualities tools)) ++
  concat
    (map (λ b, if negb (bool_decide (b_best_quality b ∈ reducible_qualities))
               then []
               else map (of_bucketed b)
                      (list_crashes evs (in_bucket (b_id b) reducible_qualities tools)))
       (list_buckets evs tools)).

(** A computation that returns, with [Q] of its result and final state. *)
Definition wp {A} (m : M A) (w : World) (Q : A → World → Prop) : Prop :=
  match m w with
  | (Ok a, w') => Q a w'
  | (Raise _, _) => False
  end.

(** A computation whose final state is related to its initial state. *)
Definition keeps {A} (R : World → World → Prop) (m : M A) : Prop :=
  ∀ w, R w (m w).2.

(** What [_get_unique_crashes] has in hand after the crashes [processed]:
    the signatures seen are those of [processed]; each is either already
    yielded, in [acc], or kept for a random pick, in [rc], never both nor
    twice; what is yielded or kept for a signature has that signature and
    is among [processed]. *)
Definition unique_inv (processed : list ReducibleCrash)
    (st : gset string * list (string * list ReducibleCrash)
          * list (string * ReducibleCrash)) : Prop :=
  let '(seen, rc, acc) := st in
  (∀ sig, sig ∈ seen ↔ sig ∈ map signature processed) ∧
  (∀ sig, sig ∈ seen ↔ sig ∈ map fst acc ++ map fst rc) ∧
  NoDup (map fst acc ++ map fst rc) ∧
  (∀ sig r, (sig, r) ∈ acc → sig = signature r ∧ r ∈ processed) ∧
  (∀ sig rs, (sig, rs) ∈ rc →
     rs ≠ [] ∧ ∀ r, r ∈ rs → sig = signature r ∧ r ∈ processed).

End Statements.

(** Sample surroundings: two unbucketed crashes of the same signature and a
    third one of quality 6, one bucket to reduce with one crash and one
    bucket already reduced; the queue refuses the second task. *)
Definition sample_crash (i : Z) (sig : string) (q : Z) : Crash :=
  {| c_id := i; c_tool := "grizzly"; c_shortSignature := sig;
     c_os := "linux"; c_testcase_quality := q |}.

Definition sample_surroundings : @Surroundings seconds_clock :=
  @Build_Surroundings seconds_clock
    (λ _ q,
       match q with
       | unbucketed _ _ =>
           [ sample_crash 11 "crash in foo" 5; sample_crash 12 "crash in foo" 5;
             sample_crash 13 "crash in bar" 6 ]
       | in_bucket b _ _ => if bool_decide (b = 7%Z) then [ sample_crash 21 "" 5 ] else []
       | with_quality_not_on _ _ _ => [ sample_crash 13 "crash in bar" 6 ]
       end)
    (λ _ _,
       [ {| b_id := 7; b_best_quality := 5; b_shortDescription := "assertion in baz" |};
         {| b_id := 8; b_best_quality := 0; b_shortDescription := "reduced" |} ])
    (λ _ task_id _, negb (bool_decide (task_id = "slug1"%string)))
    numbered_slug
    (λ n, (1600000000 + Z.of_nat n)%Z)
    (Some "decision"%string)
    (Some (Some [ "grizzly"%string ]))
    Nat.even
    (λ _ _, 0).

Definition sample_monitor (dry : bool) : ReductionMonitor :=
  {| dry_run := dry; tool_list := [ "grizzly"%string ] |}.

Definition start : World := {| slugs := 0; clock := 0; draws := 0; events := [] |}.

End MonitorSpec.

(** * Properties *)

(** ** One iteration, and the loop *)

Section LoopBody.
Context `{TimeLib} `{Taskcluster}.

Lemma dep_ids_cons svcs sbt dep deps :
  dep_ids svcs sbt (dep :: deps) =
  if is_dirty svcs dep then
    match sbt !! dep with
    | Some id => id :: dep_ids svcs sbt deps
    | None => dep_ids svcs sbt deps
    end
  else dep_ids svcs sbt deps.
Proof.
  unfold dep_ids. rewrite filter_cons.
  destruct (is_dirty svcs dep); case_decide; try done;
    cbn; by destruct (sbt !! dep).
Qed.

Lemma dirty_dep_tasks_spec svcs sbt deps w :
  match dirty_dep_tasks svcs sbt deps w with
  | (Ok ids, w') => w' = w ∧ ids = dep_ids svcs sbt deps
  | (Raise e, w') => w' = w ∧ e ≠ TaskclusterFailure ∧ ¬ resolvable svcs sbt deps
  end.
Proof.
  induction deps as [|dep deps IH]; [done|].
  rewrite dep_ids_cons. unfold is_dirty.
  cbn [dirty_dep_tasks]. unfold mbind, M_bind.
  destruct (services_get svcs dep) as [s|] eqn:Hs; cbn.
  2: { split; [done|]. split; [done|]. intros Hr.
       apply Forall_cons in Hr as [(s' & Hs' & _) _]. congruence. }
  destruct (dirty s) eqn:Hd.
  2: { destruct (dirty_dep_tasks svcs sbt deps w) as [[ids|e] w']; [done|].
       destruct IH as (-> & ? & Hnr). split; [done|]. split; [done|].
       intros Hr. apply Forall_cons in Hr as [_ Hr]. by apply Hnr. }
  unfold mbind, M_bind.
  destruct (sbt !! dep) as [id|] eqn:Hid; cbn.
  2: { split; [done|]. split; [done|]. intros Hr.
       apply Forall_cons in Hr as [(s' & Hs' & Hsome) _].
       assert (s' = s) as -> by congruence.
       destruct (Hsome Hd) as [? ?]. congruence. }
  destruct (dirty_dep_tasks svcs sbt deps w) as [[ids|e] w']; cbn.
  - destruct IH as [-> ->]. done.
  - destruct IH as (-> & ? & Hnr). split; [done|]. split; [done|].
    intros Hr. apply Forall_cons in Hr as [_ Hr]. by apply Hnr.
Qed.

Lemma create_tasks_body_outcome self sbt n s w :
  body_outcome self sbt n s w (create_tasks_body self sbt n s w).
Proof.
  unfold create_tasks_body.
  destruct (dirty s) eqn:Hd; cbn; [|by constructor].
  unfold mbind, M_bind.
  pose proof (dirty_dep_tasks_spec (services self) sbt (service_deps s) w) as Hdeps.
  destruct (dirty_dep_tasks (services self) sbt (service_deps s) w) as [[ids|e] w0].
  2: { destruct Hdeps as (-> & ? & Hnr). constructor; [done..|].
       intros (Hr & _). by apply Hnr. }
  destruct Hdeps as [-> ->].
  destruct (relative_to (dockerfile s) (context s)) as [rel|] eqn:Hrel; cbn.
  2: { constructor; [done..|]. intros (_ & [? ?] & _). congruence. }
  destruct (sbt !! name s) as [bid|] eqn:Hbid; cbn.
  2: { constructor; [done..|]. intros (_ & _ & [? ?]). congruence. }
  unfold createTask.
  destruct (queue_accepts (queue_calls w) bid _) eqn:Hb.
  2: { pose proof (bo_build_refused self sbt n s w rel bid Hd Hrel Hbid) as X.
       unfold build_call, add_call in X; cbn in X. rewrite Hb in X. by apply X. }
  destruct (should_push self) eqn:Hp; cbn.
  2: { pose proof (bo_built self sbt n s w rel bid Hd Hrel Hbid) as X.
       unfold build_call, add_call in X; cbn in X. rewrite Hb in X. by apply X. }
  match goal with |- context [queue_accepts ?l ?i ?t] =>
    destruct (queue_accepts l i t) eqn:Hq end.
  - pose proof (bo_pushed self sbt n s w rel bid Hd Hrel Hbid) as X.
    unfold push_call, build_call, add_call, took_slug in X; cbn in X.
    rewrite Hb in X. rewrite Hq in X. by apply X.
  - pose proof (bo_push_refused self sbt n s w rel bid Hd Hrel Hbid) as X.
    unfold push_call, build_call, add_call, took_slug in X; cbn in X.
    rewrite Hb in X. rewrite Hq in X. by apply X.
Qed.

Lemma alloc_build_tasks_spec acc keys w :
  alloc_build_tasks acc keys w =
  (Ok (build_ids acc (slug_calls w) keys), after_alloc w keys).
Proof.
  revert acc w. induction keys as [|k keys IH]; intros acc w.
  - cbn. unfold mret, M_ret, after_alloc. destruct w; cbn. do 3 f_equal. lia.
  - cbn [alloc_build_tasks]. unfold mbind, M_bind, slugId.
    rewrite IH. cbn. unfold after_alloc; cbn. do 3 f_equal. lia.
Qed.

Lemma for_each_outcome self sbt n l w :
  loop_outcome self sbt n l w (for_each (create_tasks_body self sbt) n l w).
Proof.
  revert n w. induction l as [|s l IH]; intros n w; [constructor|].
  cbn [for_each]. unfold mbind, M_bind.
  pose proof (create_tasks_body_outcome self sbt n s w) as Hb.
  destruct (create_tasks_body self sbt n s w) as [[n'|e] w'].
  - eapply lo_next; eauto.
  - by apply lo_raised.
Qed.

Lemma create_tasks_outcome self w :
  loop_outcome self (build_ids ∅ (slug_calls w) (map name (services self)))
    no_counts (services self) (after_alloc w (map name (services self)))
    (create_tasks self w).
Proof.
  unfold create_tasks, mbind, M_bind. rewrite alloc_build_tasks_spec.
  apply for_each_outcome.
Qed.

End LoopBody.

(** ** Invariants of a run *)

Section Invariants.
Context `{TimeLib} `{Taskcluster}.

Lemma queue_calls_add_call w c :
  queue_calls (add_call w c) = queue_calls w ++ [c].
Proof. done. Qed.

Lemma queue_calls_took_slug w : queue_calls (took_slug w) = queue_calls w.
Proof. done. Qed.

Lemma loop_calls_shape self sbt n l w res :
  loop_outcome self sbt n l w res →
  ∃ new, queue_calls res.2 = queue_calls w ++ new ∧
    Forall (λ c, ∃ s, s ∈ l ∧ dirty s = true ∧ scheduled_for self s c) new.
Proof.
  induction 1 as [n w|n s l w e w' Hb|n s l w n' w' res Hb Hl IH].
  - exists []. by rewrite app_nil_r.
  - inversion Hb; subst; cbn.
    + exists []. by rewrite app_nil_r.
    + eexists [_]. split; [done|]. repeat constructor.
      exists s. split; [left|]. split; [done|]. left. eauto.
    + eexists [_; _]. split; [by rewrite <- app_assoc|].
      repeat constructor; exists s; (split; [left|]); (split; [done|]).
      * left. eauto.
      * right. eauto.
  - destruct IH as (new & Hnew & Hall).
    assert (Hweak : Forall (λ c, ∃ s0, s0 ∈ s :: l ∧ dirty s0 = true ∧
                                  scheduled_for self s0 c) new).
    { eapply Forall_impl; [exact Hall|]. intros c (s0 & ? & ?).
      exists s0. split; [by right|done]. }
    inversion Hb; subst; cbn in *.
    + exists new. done.
    + eexists (_ :: new). split; [by rewrite Hnew, <- app_assoc|].
      constructor; [|done]. exists s. split; [left|]. split; [done|]. left. eauto.
    + eexists (_ :: _ :: new).
      split; [by rewrite Hnew, <- !app_assoc|].
      constructor; [|constructor; [|done]]; exists s; (split; [left|]);
        (split; [done|]).
      * left. eauto.
      * right. eauto.
Qed.

Lemma loop_fail_fast self sbt n l w res :
  loop_outcome self sbt n l w res →
  settled (queue_calls w) →
  fail_fast res.1 (queue_calls res.2).
Proof.
  induction 1 as [n w|n s l w e w' Hb|n s l w n' w' res Hb Hl IH]; intros Hw.
  - done.
  - inversion Hb; subst; cbn.
    + left. done.
    + right. split; [done|]. eauto.
    + right. split; [done|]. eexists _, _. split; [done|]. split; [|done].
      apply Forall_app. split; [done|]. by constructor.
  - apply IH. inversion Hb; subst; cbn; [done| |].
    + apply Forall_app. split; [done|]. by constructor.
    + apply Forall_app. split; [|by constructor].
      apply Forall_app. split; [done|]. by constructor.
Qed.

(** [create_tasks], started in any world. *)
Lemma create_tasks_calls_shape self w :
  ∃ new, queue_calls (create_tasks self w).2 = queue_calls w ++ new ∧
    Forall (λ c, ∃ s, s ∈ services self ∧ dirty s = true ∧
                      scheduled_for self s c) new.
Proof.
  apply (loop_calls_shape _ _ _ _ _ _ (create_tasks_outcome self w)).
Qed.

Lemma create_tasks_fail_fast_from self w :
  settled (queue_calls w) →
  fail_fast (create_tasks self w).1 (queue_calls (create_tasks self w).2).
Proof.
  apply (loop_fail_fast _ _ _ _ _ _ (create_tasks_outcome self w)).
Qed.

(** After a refused call nothing else is in the list. *)
Lemma fail_fast_refused_last {A} (r : Result A) calls pre c post :
  fail_fast r calls →
  calls = pre ++ c :: post → call_ok c = false →
  post = [] ∧ settled pre ∧ r = Raise TaskclusterFailure.
Proof.
  intros Hff -> Hc.
  assert (Hns : ¬ settled (pre ++ c :: post)).
  { intros Hs. apply Forall_app in Hs as [_ Hs].
    apply Forall_cons in Hs as [Hs _]. congruence. }
  destruct r as [a|e]; cbn in Hff; [done|].
  destruct Hff as [[_ ?]|[-> (pre' & c' & Heq & Hpre' & Hc')]]; [done|].
  induction post as [|x post' _] using rev_ind.
  - apply app_inj_tail in Heq as [-> ->]. done.
  - exfalso. rewrite app_comm_cons, app_assoc in Heq.
    apply app_inj_tail in Heq as [<- _].
    apply Forall_app in Hpre' as [_ Hs].
    apply Forall_cons in Hs as [Hs _]. congruence.
Qed.

End Invariants.

(** ** The calls of a run, unit by unit *)

Section Trace.
Context `{TimeLib} `{Taskcluster}.

Lemma body_trace self sbt n s w r w' :
  body_outcome self sbt n s w (r, w') →
  ∃ b, queue_calls w' = queue_calls w ++ b ∧
    match r with
    | Ok n' => completed self sbt s b ∧
               n' = bump n (dirty_count [s]) (should_push self)
    | Raise e => interrupted self sbt s e b
    end.
Proof.
  assert (Hn : ∀ b, bump n 0 b = n).
  { intros b. destruct n as [nb np]. unfold bump; cbn.
    f_equal; [lia|destruct b; lia]. }
  unfold dirty_count.
  inversion 1 as [Hd|e' Hd Hne Hnr|rel bid Hd Hrel Hbid cb Hok
                 |rel bid Hd Hrel Hbid cb Hok Hsp
                 |rel bid Hd Hrel Hbid cb Hok Hsp cp Hokp
                 |rel bid Hd Hrel Hbid cb Hok Hsp cp Hokp]; subst;
    rewrite ?filter_cons, ?filter_nil.
  - exists []. rewrite app_nil_r. rewrite decide_False by congruence.
    split; [done|]. split; [by constructor|by rewrite Hn].
  - exists []. rewrite app_nil_r. split; [done|]. by constructor.
  - exists [cb]. split; [done|]. apply in_build_refused; try done.
    + split; [done|]. by exists rel.
    + by eexists.
  - exists [cb]. split; [done|]. rewrite decide_True by done. split.
    + apply co_built; try done. split; [done|]. by exists rel.
    + unfold bump, count_build. rewrite Hsp. cbn. f_equal; lia.
  - exists [cb; cp]. split; [cbn; by rewrite <- app_assoc|].
    apply in_push_refused; try done.
    + split; [done|]. by exists rel.
    + by eexists.
  - exists [cb; cp]. split; [cbn; by rewrite <- app_assoc|].
    rewrite decide_True by done. split.
    + apply co_pushed; try done. split; [done|]. by exists rel.
    + unfold bump, count_push, count_build. rewrite Hsp. cbn. f_equal; lia.
Qed.

Lemma bump_bump n j k b : bump (bump n j b) k b = bump n (j + k) b.
Proof. unfold bump; cbn. destruct b; f_equal; lia. Qed.

(** A run handles a prefix of the services to the end, one block of calls
    for each, and stops in the iteration that raises, if any. *)
Lemma loop_trace self sbt n l w res :
  loop_outcome self sbt n l w res →
  ∃ done rest blocks last,
    l = done ++ rest ∧
    Forall2 (completed self sbt) done blocks ∧
    queue_calls res.2 = queue_calls w ++ concat blocks ++ last ∧
    match res.1 with
    | Ok n' => rest = [] ∧ last = [] ∧
               n' = bump n (dirty_count done) (should_push self)
    | Raise e => ∃ s rest', rest = s :: rest' ∧ interrupted self sbt s e last
    end.
Proof.
  induction 1 as [n w|n s l w e w' Hb|n s l w n' w' res Hb Hl IH].
  - exists [], [], [], []. cbn. rewrite app_nil_r. repeat split; try done.
    destruct n as [nb np]. unfold bump, dirty_count; cbn. f_equal; [lia|].
    destruct (should_push self); lia.
  - apply body_trace in Hb as (b & Hcalls & Hint).
    exists [], (s :: l), [], b. cbn. repeat split; try done. eauto.
  - apply body_trace in Hb as (b & Hcalls & Hcomp & ->).
    destruct IH as (done & rest & blocks & last & -> & Hall & Hq & Hres).
    exists (s :: done), rest, (b :: blocks), last.
    split; [done|]. split; [by constructor|]. split.
    + rewrite Hq, Hcalls. cbn. by rewrite <- !app_assoc.
    + destruct res.1 as [n'|e]; [|done].
      destruct Hres as (-> & -> & ->). repeat split; try done.
      rewrite bump_bump. f_equal. unfold dirty_count.
      by rewrite (filter_app _ [s] done), length_app.
Qed.

End Trace.

(** ** Runs that are not interrupted *)

Section Accepted.
Context `{TimeLib} `{Taskcluster}.

Lemma services_get_Some svcs key s :
  services_get svcs key = Some s → s ∈ svcs ∧ name s = key.
Proof.
  unfold services_get. intros Hf. apply find_some in Hf as [Hin Hname].
  split; [by apply list_elem_of_In|]. by apply bool_decide_eq_true in Hname.
Qed.

Lemma services_get_member svcs s :
  s ∈ svcs → is_Some (services_get svcs (name s)).
Proof.
  unfold services_get. intros Hin.
  destruct (find _ svcs) as [s'|] eqn:Hf; [done|].
  apply list_elem_of_In in Hin.
  pose proof (find_none _ _ Hf s Hin) as Hn. cbn in Hn.
  by rewrite bool_decide_eq_false in Hn.
Qed.

Lemma build_ids_is_Some acc k keys key :
  key ∈ keys ∨ is_Some (acc !! key) → is_Some (build_ids acc k keys !! key).
Proof.
  revert acc k. induction keys as [|x keys IH]; intros acc k [Hin|Hacc]; cbn.
  - by apply not_elem_of_nil in Hin.
  - done.
  - apply IH. apply elem_of_cons in Hin as [->|Hin]; [right|by left].
    rewrite lookup_insert_eq. done.
  - apply IH. right. destruct (decide (x = key)) as [->|Hne].
    + rewrite lookup_insert_eq. done.
    + by rewrite lookup_insert_ne.
Qed.

Lemma closed_catalog_ready self k s :
  closed_catalog (services self) → s ∈ services self →
  ready self (build_ids ∅ k (map name (services self))) s.
Proof.
  intros Hclosed Hs. unfold closed_catalog in Hclosed.
  rewrite Forall_forall in Hclosed. destruct (Hclosed s Hs) as [Hdeps Hrel].
  assert (Hkey : ∀ s', s' ∈ services self →
            is_Some (build_ids ∅ k (map name (services self)) !! name s')).
  { intros s' Hs'. apply build_ids_is_Some. left. by apply list_elem_of_fmap_2. }
  split; [|split; [done|by apply Hkey]].
  eapply Forall_impl; [exact Hdeps|]. intros dep [s' Hs'].
  exists s'. split; [done|]. intros _.
  apply services_get_Some in Hs' as [Hin <-]. by apply Hkey.
Qed.

(** With a loaded catalog and an accepting queue the loop runs to its end:
    one block of calls per unit, and the counts of the closing log line. *)
Lemma create_tasks_accepted self :
  closed_catalog (services self) → always_accepts →
  ∃ blocks,
    outcome_of (create_tasks self)
      = Ok (bump no_counts (dirty_count (services self)) (should_push self)) ∧
    calls_of (create_tasks self) = concat blocks ∧
    Forall2 (completed self (build_ids ∅ 0 (map name (services self))))
      (services self) blocks.
Proof.
  intros Hclosed Hacc.
  pose proof (create_tasks_outcome self initial_world) as Hloop.
  apply loop_trace in Hloop
    as (ran & rest & blocks & last & Hsplit & Hall & Hcalls & Hres).
  unfold outcome_of, calls_of, run.
  destruct (create_tasks self initial_world).1 as [n'|e].
  - destruct Hres as (-> & -> & ->). rewrite app_nil_r in Hsplit, Hcalls.
    subst ran. exists blocks. by rewrite Hcalls.
  - exfalso. destruct Hres as (s & rest' & -> & Hint).
    assert (Hs : s ∈ services self).
    { rewrite Hsplit. apply elem_of_app. right. by left. }
    inversion Hint as [Hd Hne Hnr|cb Hd Hb Hok [l Hans] He
                      |cb cp Hd Hb Hok Hsp Hcp Hokp [l Hans] He]; subst.
    + apply Hnr. by apply closed_catalog_ready.
    + rewrite Hacc in Hans. congruence.
    + rewrite Hacc in Hans. congruence.
Qed.

End Accepted.

(** ** The entry point *)

Section MainRun.
Context `{TimeLib} `{Taskcluster} `{Collaborators}.

Lemma main_run args w :
  main args w =
  match load_services (from_taskcluster (args_github_action args) (args_github_event args)) with
  | None => (Raise CatalogError, w)
  | Some svcs =>
      let res := create_tasks (scheduler_of args svcs) w in
      (match res.1 with Ok _ => Ok 0%Z | Raise e => Raise e end, res.2)
  end.
Proof.
  unfold main, mbind, M_bind.
  destruct (load_services _) as [svcs|]; cbn; [|done].
  fold (scheduler_of args svcs).
  by destruct (create_tasks (scheduler_of args svcs) w) as [[n|e] w'].
Qed.

Lemma main_fail_fast_from args w :
  settled (queue_calls w) →
  fail_fast (main args w).1 (queue_calls (main args w).2).
Proof.
  intros Hw. rewrite main_run.
  destruct (load_services _) as [svcs|]; cbn.
  - pose proof (create_tasks_fail_fast_from (scheduler_of args svcs) w Hw) as Hff.
    by destruct (create_tasks (scheduler_of args svcs) w).1.
  - left. done.
Qed.

End MainRun.

(** ** Submission failures (section 4.4) *)

(** C1, counterexample: with two independent dirty units [a] and [b] and a
    queue that refuses the build task of [a], the run stops at the refused
    call; the build task of the independent unit [b] is never submitted, so
    the failure is not isolated to the branch of [a]. *)
Lemma independent_branch_abandoned :
  ¬ @isolates_submission_failures seconds_clock (refusing_queue "slug0") two_branches.
Proof.
  intros Hiso.
  assert (∃ c0, calls_of (@create_tasks seconds_clock (refusing_queue "slug0") two_branches) = [c0]
                ∧ build_call_of unit_a c0 ∧ call_ok c0 = false
                ∧ task_env (call_task c0) "IMAGE_NAME" ≠ Some (Some "b"))
    as (c0 & Hcalls & Hbuild & Hrefused & Hname).
  { eexists. split; [vm_compute; reflexivity|]. by repeat split. }
  destruct (Hiso unit_a) as (_ & Hind & _).
  - by left.
  - exists c0. rewrite Hcalls. repeat split; try apply Hbuild; [by left|done].
  - destruct (Hind unit_b) as (c & Hin & _ & Henv).
    + right. by left.
    + done.
    + intros Htd. inversion Htd as [d u (_ & _ & Hdep)|d m u (_ & _ & Hdep) _]; subst;
        cbn in Hdep; by apply not_elem_of_nil in Hdep.
    + rewrite Hcalls in Hin. apply list_elem_of_singleton in Hin as ->.
      by apply Hname.
Qed.

(** C1, as amended: when the queue refuses a creation call, the scheduler
    re-raises at once: the refused call is the last call of the invocation
    (no creation call is attempted afterwards, whether for a dependent node
    or for an independent one), every call before it was accepted, and the
    invocation ends with [TaskclusterFailure] and a non-zero exit status. *)
Theorem main_stops_at_first_refusal `{TimeLib} `{Taskcluster} `{Collaborators}
    (args : Namespace) (pre : list Call) (c : Call) (post : list Call) :
  calls_of (main args) = pre ++ c :: post →
  call_ok c = false →
  post = [] ∧ settled pre ∧
  outcome_of (main args) = Raise TaskclusterFailure ∧
  exit_status (outcome_of (main args)) ≠ 0%Z.
Proof.
  intros Hcalls Hc.
  assert (Hff : fail_fast (main args initial_world).1
                        (queue_calls (main args initial_world).2)).
  { apply main_fail_fast_from. constructor. }
  destruct (fail_fast_refused_last _ _ _ _ _ Hff Hcalls Hc)
    as (Hpost & Hpre & Hout).
  unfold outcome_of, run. rewrite Hout. done.
Qed.

Lemma main_stops_at_first_refusal_witness :
  ∃ c,
    calls_of (@main seconds_clock (refusing_queue "slug0") _ (forced_rebuild_args false))
      = [] ++ c :: [] ∧
    call_ok c = false ∧
    (@nil Call = [] ∧ settled [] ∧
     outcome_of (@main seconds_clock (refusing_queue "slug0") _ (forced_rebuild_args false))
       = Raise TaskclusterFailure ∧
     exit_status
       (outcome_of (@main seconds_clock (refusing_queue "slug0") _ (forced_rebuild_args false)))
       ≠ 0%Z).
Proof.
  eexists. split; [vm_compute; reflexivity|]. split; [reflexivity|].
  eapply (@main_stops_at_first_refusal seconds_clock (refusing_queue "slug0") _
            (forced_rebuild_args false) [] _ []); [vm_compute; reflexivity|reflexivity].
Defined.

(** ** The [--dry-run] option *)

(** C10: the scheduler never reads [--dry-run]: two invocations that
    differ only in that flag make the same calls to the queue, leave the
    same state and return the same exit status. *)
Theorem main_ignores_dry_run `{TimeLib} `{Taskcluster} `{Collaborators}
    (args : Namespace) (b : bool) (w : World) :
  main (with_dry_run args b) w = main args w ∧
  calls_of (main (with_dry_run args b)) = calls_of (main args) ∧
  exit_status (outcome_of (main (with_dry_run args b))) =
    exit_status (outcome_of (main args)).
Proof.
  assert (Heq : ∀ w', main (with_dry_run args b) w' = main args w') by done.
  unfold calls_of, outcome_of, run. by rewrite !Heq.
Qed.

(** ** The shape of the submitted tasks (section 4.3) *)

Lemma calls_of_create_tasks_shape `{TimeLib} `{Taskcluster} (self : Scheduler) :
  Forall (λ c, ∃ s, s ∈ services self ∧ dirty s = true ∧ scheduled_for self s c)
    (calls_of (create_tasks self)).
Proof.
  destruct (create_tasks_calls_shape self initial_world) as (new & Hnew & Hall).
  unfold calls_of, run. by rewrite Hnew.
Qed.

Lemma build_task_is_build `{TimeLib} (self : Scheduler) s deps rel :
  is_build_task (build_task self s deps rel) ∧
  ¬ is_push_task (build_task self s deps rel).
Proof. by split. Qed.

Lemma push_task_is_push `{TimeLib} (self : Scheduler) s bid :
  is_push_task (push_task self s bid) ∧
  ¬ is_build_task (push_task self s bid).
Proof. by split. Qed.

Lemma no_publish_without_should_push `{TimeLib} `{Taskcluster} (self : Scheduler) :
  should_push self = false → ¬ publishes self.
Proof.
  intros Hsp (c & Hin & Hpush).
  pose proof (calls_of_create_tasks_shape self) as Hall.
  rewrite Forall_forall in Hall.
  destruct (Hall c Hin) as (s & _ & _ & [(deps & rel & Ht)|[Hsp' _]]).
  - rewrite Ht in Hpush. by apply build_task_is_build in Hpush.
  - congruence.
Qed.

(** C4, the code at the failing input: [create_tasks] compares the branch
    of the event with the publish branch and never looks at the kind of the
    event.  For a pull request whose branch is the publish branch, the
    Build task of the dirty unit is indexed under the number of the pull
    request, and a Publish task that depends on it is submitted all the
    same: [shouldPublish] is true for an event that is no push. *)
Theorem pull_request_on_push_branch_publishes :
  pull_request (github_event pull_request_on_master_run) = Some 7%N ∧
  branch (github_event pull_request_on_master_run)
    = Some (push_branch pull_request_on_master_run) ∧
  @should_push seconds_clock pull_request_on_master_run = true ∧
  outcome_of (@create_tasks seconds_clock accepting_queue pull_request_on_master_run)
    = Ok {| build_tasks_created := 1; push_tasks_created := 1 |} ∧
  ∃ cb cp,
    calls_of (@create_tasks seconds_clock accepting_queue pull_request_on_master_run)
      = [cb; cp] ∧
    is_build_task (call_task cb) ∧
    routes (call_task cb)
      = Some [ "index.project.fuzzing.orion.a.rev.0a1b2c";
               "index.project.fuzzing.orion.a.pull_request.7" ] ∧
    is_push_task (call_task cp) ∧
    dependencies (call_task cp) = [call_id cb] ∧
    call_ok cb = true ∧ call_ok cp = true ∧
    @publishes seconds_clock accepting_queue pull_request_on_master_run.
Proof.
  split_and!; [reflexivity|reflexivity|reflexivity|by vm_compute|].
  assert (∃ cb cp,
            calls_of (@create_tasks seconds_clock accepting_queue
                        pull_request_on_master_run) = [cb; cp] ∧
            is_build_task (call_task cb) ∧
            routes (call_task cb)
              = Some [ "index.project.fuzzing.orion.a.rev.0a1b2c";
                       "index.project.fuzzing.orion.a.pull_request.7" ] ∧
            is_push_task (call_task cp) ∧
            dependencies (call_task cp) = [call_id cb] ∧
            call_ok cb = true ∧ call_ok cp = true)
    as (cb & cp & Hcalls & Hb & Hr & Hp & Hd & Hab & Hap).
  { eexists _, _. split; [vm_compute; reflexivity|]. by split_and!. }
  exists cb, cp. split_and!; try done.
  exists cp. rewrite Hcalls. split; [|done]. right. by left.
Qed.

(** C7: every Build task submitted has the deadline [now + DEADLINE], its
    one artifact expires at [now + ARTIFACTS_EXPIRE], and its routes are
    the index route keyed by unit name and commit, carried for every event,
    and the route keyed by unit name and pull-request number when the event
    is a pull request (by unit name and branch otherwise). *)
Theorem build_task_timing_and_routes `{TimeLib} `{Taskcluster}
    (self : Scheduler) (c : Call) :
  c ∈ calls_of (create_tasks self) →
  is_build_task (call_task c) →
  ∃ s, s ∈ services self ∧ dirty s = true ∧
    task_env (call_task c) "IMAGE_NAME" = Some (Some (name s)) ∧
    deadline (call_task c) = stringDate (add_timedelta (now self) DEADLINE) ∧
    (∃ file a, artifacts (payload (call_task c)) = Some [(file, a)] ∧
       art_expires a = stringDate (add_relativedelta (now self) ARTIFACTS_EXPIRE)) ∧
    ∃ rs, routes (call_task c) = Some rs ∧
      ("index.project.fuzzing.orion." ++ name s ++ ".rev."
         ++ commit (github_event self))%string ∈ rs ∧
      match pull_request (github_event self) with
      | Some pr =>
          ("index.project.fuzzing.orion." ++ name s ++ ".pull_request."
             ++ str_int pr)%string ∈ rs
      | None =>
          ("index.project.fuzzing.orion." ++ name s ++ "."
             ++ fmt_opt (branch (github_event self)))%string ∈ rs
      end.
Proof.
  intros Hin Hbuild.
  pose proof (calls_of_create_tasks_shape self) as Hall.
  rewrite Forall_forall in Hall.
  destruct (Hall c Hin) as (s & Hs & Hd & [(deps & rel & Ht)|[_ (bid & Ht)]]).
  2: { rewrite Ht in Hbuild. by apply push_task_is_push in Hbuild. }
  exists s. rewrite Ht. repeat split; try done.
  - eexists _, _. split; reflexivity.
  - eexists. split; [reflexivity|]. split.
    + left.
    + unfold build_index, index_prefix.
      destruct (pull_request (github_event self)).
      * right. left.
      * right. left.
Qed.

Lemma build_task_timing_and_routes_witness :
  ∃ c,
    c ∈ calls_of (@create_tasks seconds_clock accepting_queue pull_request_run) ∧
    is_build_task (call_task c) ∧
    deadline (call_task c) = "1600007200"%string ∧
    ∃ rs, routes (call_task c) = Some rs ∧
          "index.project.fuzzing.orion.a.rev.0a1b2c"%string ∈ rs ∧
          "index.project.fuzzing.orion.a.pull_request.7"%string ∈ rs.
Proof.
  assert (∃ c0, calls_of (@create_tasks seconds_clock accepting_queue pull_request_run) = [c0]
                ∧ is_build_task (call_task c0)) as (c0 & Hcalls & Hbuild).
  { eexists. split; [vm_compute; reflexivity|reflexivity]. }
  assert (Hin : c0 ∈ calls_of (@create_tasks seconds_clock accepting_queue pull_request_run)).
  { rewrite Hcalls. left. }
  exists c0. split; [exact Hin|]. split; [exact Hbuild|].
  destruct (@build_task_timing_and_routes seconds_clock accepting_queue
              pull_request_run c0 Hin Hbuild)
    as (s & Hs & _ & _ & Hdl & _ & rs & Hrs & Hrev & Hpr).
  apply list_elem_of_singleton in Hs as ->.
  split; [exact Hdl|]. exists rs. split; [exact Hrs|]. split; [exact Hrev|exact Hpr].
Defined.

(** ** Marking services for rebuild (sections 4.2 and 6) *)

Lemma append_cons (x : ascii) (a b : string) :
  (String x a ++ b)%string = String x (a ++ b)%string.
Proof. reflexivity. Qed.

Lemma append_nil (b : string) : ("" ++ b)%string = b.
Proof. reflexivity. Qed.

Lemma prefix_cons (x y : ascii) (a b : string) :
  String.prefix (String x a) (String y b) =
  if Ascii.ascii_dec x y then String.prefix a b else false.
Proof. reflexivity. Qed.

Lemma prefix_spec (a b : string) :
  String.prefix a b = true ↔ ∃ post, b = (a ++ post)%string.
Proof.
  revert b. induction a as [|x a IH]; intros b.
  - split; [intros _; by exists b|intros _; by destruct b].
  - destruct b as [|y b].
    + split; [done|]. intros [post Hpost]. by rewrite append_cons in Hpost.
    + rewrite prefix_cons. destruct (Ascii.ascii_dec x y) as [->|Hne].
      * rewrite IH. split; intros [post Hpost]; exists post.
        -- by rewrite append_cons, Hpost.
        -- rewrite append_cons in Hpost. congruence.
      * split; [done|]. intros [post Hpost].
        rewrite append_cons in Hpost. congruence.
Qed.

Lemma str_in_cons (needle : string) (y : ascii) (hay : string) :
  str_in needle (String y hay) =
  String.prefix needle (String y hay) || str_in needle hay.
Proof. reflexivity. Qed.

(** [str_in needle hay] holds exactly when [needle] occurs in [hay]. *)
Lemma str_in_spec (needle hay : string) :
  str_in needle hay = true ↔ ∃ pre post, hay = (pre ++ needle ++ post)%string.
Proof.
  induction hay as [|y hay IH].
  - change (str_in needle "") with (String.prefix needle "" || false).
    rewrite orb_false_r, prefix_spec. split.
    + intros [post Hpost]. by exists EmptyString, post.
    + intros (pre & post & Heq). destruct pre as [|z pre].
      * by exists post.
      * by rewrite append_cons in Heq.
  - rewrite str_in_cons, orb_true_iff, prefix_spec, IH. split.
    + intros [[post Hpost]|(pre & post & Heq)].
      * by exists EmptyString, post.
      * exists (String y pre), post. by rewrite append_cons, Heq.
    + intros (pre & post & Heq). destruct pre as [|z pre].
      * left. by exists post.
      * right. exists pre, post. rewrite append_cons in Heq. congruence.
Qed.

(** C8: when the marker [/force-rebuild] occurs in the commit message,
    every unit of the catalog is marked dirty, whatever the changed paths
    are (they are not looked at); otherwise the dirty flags are those the
    changed-path analysis gives. *)
Theorem force_rebuild_marks_every_unit `{TimeLib} (self : Scheduler) :
  ((∃ pre post,
      commit_message (github_event self) = (pre ++ "/force-rebuild" ++ post)%string) →
   services (mark_services_for_rebuild self) = map set_dirty (services self) ∧
   Forall (λ s, dirty s = true) (services (mark_services_for_rebuild self)) ∧
   map name (services (mark_services_for_rebuild self)) = map name (services self) ∧
   ∀ paths,
     services (mark_services_for_rebuild
                 (with_event self (with_changed_paths (github_event self) paths)))
     = services (mark_services_for_rebuild self)) ∧
  ((¬ ∃ pre post,
      commit_message (github_event self) = (pre ++ "/force-rebuild" ++ post)%string) →
   services (mark_services_for_rebuild self)
   = mark_changed_dirty (services self) (changed_paths (github_event self))).
Proof.
  unfold mark_services_for_rebuild. split.
  - intros Hmarker. apply str_in_spec in Hmarker as Hin. rewrite Hin.
    cbn. rewrite Hin. cbn. split; [done|]. split; [|split; [|done]].
    + apply Forall_forall. intros s Hs. apply list_elem_of_fmap in Hs as (s0 & -> & _). done.
    + rewrite <- list_fmap_compose. by apply list_fmap_ext.
  - intros Hno. destruct (str_in _ _) eqn:Hin; [|done].
    apply str_in_spec in Hin. done.
Qed.

Lemma force_rebuild_marks_every_unit_witness :
  (∃ pre post,
     commit_message (github_event forced_rebuild)
     = (pre ++ "/force-rebuild" ++ post)%string) ∧
  services (mark_services_for_rebuild forced_rebuild)
  = [unit_ "a" [] true; unit_ "b" [ "a" ] true].
Proof.
  assert (Hmarker : ∃ pre post,
             commit_message (github_event forced_rebuild)
             = (pre ++ "/force-rebuild" ++ post)%string).
  { exists "bump "%string, ""%string. reflexivity. }
  split; [exact Hmarker|].
  exact (proj1 (proj1 (@force_rebuild_marks_every_unit seconds_clock forced_rebuild) Hmarker)).
Defined.

(** ** The task graph of an uninterrupted run (section 4.3) *)

Section Graph.
Context `{TimeLib} `{Taskcluster}.

Lemma build_of_build_call_of self sbt s cb :
  build_of self sbt s cb → build_call_of s cb.
Proof. intros (_ & rel & _ & Ht). unfold build_call_of. by rewrite Ht. Qed.

Lemma completed_publish_pair self sbt s b :
  should_push self = true → completed self sbt s b →
  if dirty s then publish_pair self s b else b = [].
Proof.
  intros Hsp. inversion 1 as [Hd|cb Hd Hb Hok Hsp'|cb cp Hd Hb Hok _ Hcp Hokp];
    subst; rewrite Hd; [done|congruence|].
  exists cb, cp. split; [done|]. split; [by eapply build_of_build_call_of|].
  rewrite Hcp. by repeat split.
Qed.

Lemma resolvable_dep_ids svcs sbt deps :
  resolvable svcs sbt deps →
  Forall2 (λ dep d, sbt !! dep = Some d)
    (filter (λ dep, is_dirty svcs dep = true) deps) (dep_ids svcs sbt deps).
Proof.
  induction 1 as [|dep deps (s' & Hs' & Hid) _ IH]; [constructor|].
  assert (Hdi : is_dirty svcs dep = dirty s').
  { unfold is_dirty. by rewrite Hs'. }
  rewrite dep_ids_cons, filter_cons, Hdi.
  destruct (dirty s') eqn:Hd.
  - rewrite decide_True by done. destruct (Hid eq_refl) as [d Hd'].
    rewrite Hd'. by constructor.
  - rewrite decide_False by done. exact IH.
Qed.

Lemma build_task_load_deps self s deps rel :
  task_env (build_task self s deps rel) "LOAD_DEPS"
  = Some (Some (match deps with [] => "0" | _ => "1" end)%string).
Proof. reflexivity. Qed.

Lemma load_deps_flag self s deps rel :
  (task_env (build_task self s deps rel) "LOAD_DEPS" = Some (Some "1"%string)
   ↔ deps ≠ []) ∧
  (task_env (build_task self s deps rel) "LOAD_DEPS" = Some (Some "0"%string)
   ↔ deps = []).
Proof.
  rewrite build_task_load_deps. destruct deps as [|d deps].
  - split; split; done.
  - split; split; done.
Qed.

Lemma completed_build_block self sbt s b :
  ready self sbt s → completed self sbt s b → build_block self sbt s b.
Proof.
  intros (Hres & _ & _). unfold build_block.
  assert (Hcb : ∀ cb, build_of self sbt s cb →
    build_call_of s cb ∧ sbt !! name s = Some (call_id cb) ∧
    Forall2 (λ dep d, sbt !! dep = Some d)
      (filter (λ dep, is_dirty (services self) dep = true) (service_deps s))
      (dependencies (call_task cb)) ∧
    (task_env (call_task cb) "LOAD_DEPS" = Some (Some "1"%string)
     ↔ dependencies (call_task cb) ≠ []) ∧
    (task_env (call_task cb) "LOAD_DEPS" = Some (Some "0"%string)
     ↔ dependencies (call_task cb) = [])).
  { intros cb Hb. split; [by eapply build_of_build_call_of|].
    destruct Hb as (Hid & rel & _ & Ht). split; [done|]. rewrite Ht.
    split; [by apply resolvable_dep_ids|].
    apply load_deps_flag. }
  inversion 1 as [Hd|cb Hd Hb Hok Hsp'|cb cp Hd Hb Hok _ Hcp Hokp];
    subst; rewrite Hd; [done| |].
  - exists cb, []. destruct (Hcb cb Hb) as (? & ? & ? & ? & ?).
    split_and!; done.
  - exists cb, [cp]. destruct (Hcb cb Hb) as (? & ? & ? & ? & ?).
    split_and!; try done. constructor; [|constructor]. rewrite Hcp.
    apply push_task_is_push.
Qed.

Lemma Forall2_concat_elem {A B} (R : A → list B → Prop) l bs c :
  Forall2 R l bs → c ∈ concat bs →
  ∃ s b, s ∈ l ∧ R s b ∧ c ∈ b.
Proof.
  induction 1 as [|s b l bs HR _ IH]; cbn; intros Hc.
  - by apply not_elem_of_nil in Hc.
  - apply elem_of_app in Hc as [Hc|Hc].
    + exists s, b. split; [by left|done].
    + destruct (IH Hc) as (s' & b' & ? & ? & ?).
      exists s', b'. split; [by right|done].
Qed.

Lemma Forall2_block_of {A B} (R : A → list B → Prop) l bs s :
  Forall2 R l bs → s ∈ l →
  ∃ b, R s b ∧ ∀ c, c ∈ b → c ∈ concat bs.
Proof.
  induction 1 as [|s' b l bs HR _ IH]; cbn; intros Hs.
  - by apply not_elem_of_nil in Hs.
  - apply elem_of_cons in Hs as [->|Hs].
    + exists b. split; [done|]. intros c Hc. apply elem_of_app. by left.
    + destruct (IH Hs) as (b' & ? & Hsub). exists b'. split; [done|].
      intros c Hc. apply elem_of_app. right. by apply Hsub.
Qed.

End Graph.

Lemma Forall2_impl_elem {A B} (R R' : A → B → Prop) l bs :
  Forall2 R l bs → (∀ s b, s ∈ l → R s b → R' s b) → Forall2 R' l bs.
Proof.
  induction 1 as [|s b l bs HR _ IH]; intros Himpl; constructor.
  - apply Himpl; [by left|done].
  - apply IH. intros s' b' Hs'. apply Himpl. by right.
Qed.

Lemma create_tasks_published `{TimeLib} `{Taskcluster} (self : Scheduler) :
  closed_catalog (services self) → always_accepts → should_push self = true →
  ∃ blocks,
    calls_of (create_tasks self) = concat blocks ∧
    Forall2 (λ s b, if dirty s then publish_pair self s b else b = [])
      (services self) blocks ∧
    outcome_of (create_tasks self)
      = Ok {| build_tasks_created := dirty_count (services self);
              push_tasks_created := dirty_count (services self) |}.
Proof.
  intros Hclosed Hacc Hsp.
  destruct (create_tasks_accepted self Hclosed Hacc) as (blocks & Hout & Hcalls & Hall).
  exists blocks. split; [done|]. split.
  - eapply Forall2_impl; [exact Hall|]. intros s b.
    by apply completed_publish_pair.
  - rewrite Hout, Hsp. done.
Qed.

(** C5: with a loaded catalog and an accepting queue, when [shouldPublish]
    is true the submitted tasks are, unit by unit in catalog order, nothing
    for a clean unit and for every dirty unit exactly its Build task
    followed by one Publish task whose sole dependency is that Build task,
    that carries the publish credential reference and declares no artifact;
    the run counts one Build and one Publish task per dirty unit. When
    [shouldPublish] is false no Publish task is submitted at all. *)
Theorem dirty_units_built_and_published `{TimeLib} `{Taskcluster} (self : Scheduler) :
  closed_catalog (services self) → always_accepts →
  (should_push self = true →
   ∃ blocks,
     calls_of (create_tasks self) = concat blocks ∧
     Forall2 (λ s b, if dirty s then publish_pair self s b else b = [])
       (services self) blocks ∧
     outcome_of (create_tasks self)
       = Ok {| build_tasks_created := dirty_count (services self);
               push_tasks_created := dirty_count (services self) |}) ∧
  (should_push self = false → ¬ publishes self).
Proof.
  intros Hclosed Hacc. split.
  - by apply create_tasks_published.
  - apply no_publish_without_should_push.
Qed.

(** C6: with a loaded catalog and an accepting queue there is an
    assignment [ids] of Build task ids to unit names such that the
    submitted tasks are, unit by unit, nothing for a clean unit and for
    every dirty unit one Build task, submitted under the unit's id, whose
    dependencies are exactly the ids of those of its dependencies that are
    dirty and whose [LOAD_DEPS] is ["1"] if and only if that list is not
    empty; and every dependency of every submitted task is the Build task
    of a dirty unit, so that no task depends on a clean unit. *)
Theorem build_tasks_depend_on_dirty_dependencies `{TimeLib} `{Taskcluster}
    (self : Scheduler) :
  closed_catalog (services self) → always_accepts →
  ∃ (ids : gmap string TaskId) blocks,
    calls_of (create_tasks self) = concat blocks ∧
    Forall2 (build_block self ids) (services self) blocks ∧
    ∀ c d, c ∈ calls_of (create_tasks self) → d ∈ dependencies (call_task c) →
      ∃ s' cb', s' ∈ services self ∧ dirty s' = true ∧
        cb' ∈ calls_of (create_tasks self) ∧ build_call_of s' cb' ∧ call_id cb' = d.
Proof.
  intros Hclosed Hacc.
  destruct (create_tasks_accepted self Hclosed Hacc) as (blocks & _ & Hcalls & Hall).
  set (sbt := build_ids ∅ 0 (map name (services self))) in *.
  exists sbt, blocks. split; [done|]. split.
  { eapply Forall2_impl_elem; [exact Hall|]. intros s b Hs.
    apply completed_build_block. by apply closed_catalog_ready. }
  assert (Hnode : ∀ s', s' ∈ services self → dirty s' = true →
            ∃ cb', cb' ∈ concat blocks ∧ build_of self sbt s' cb').
  { intros s' Hs' Hd'.
    destruct (Forall2_block_of _ _ _ _ Hall Hs') as (b' & Hb' & Hsub).
    inversion Hb' as [Hd|cb Hd Hb _ _|cb cp Hd Hb _ _ _ _]; subst; [congruence| |];
      exists cb; (split; [apply Hsub; by left|done]). }
  rewrite Hcalls. intros c d Hc Hdep.
  destruct (Forall2_concat_elem _ _ _ _ Hall Hc) as (s & b & Hs & Hb & Hcb).
  assert (Hbuild : ∀ cb, build_of self sbt s cb → d ∈ dependencies (call_task cb) →
            ∃ s' cb', s' ∈ services self ∧ dirty s' = true ∧
              cb' ∈ concat blocks ∧ build_call_of s' cb' ∧ call_id cb' = d).
  { intros cb (_ & rel & _ & Ht) Hd. rewrite Ht in Hd.
    change (d ∈ dep_ids (services self) sbt (service_deps s)) in Hd.
    unfold dep_ids in Hd. apply list_elem_of_omap in Hd as (dep & Hdep' & Hid).
    apply list_elem_of_filter in Hdep' as [Hdirty _]. unfold is_dirty in Hdirty.
    destruct (services_get (services self) dep) as [s'|] eqn:Hget; [|done].
    apply services_get_Some in Hget as [Hs' <-].
    destruct (Hnode s' Hs' Hdirty) as (cb' & Hin' & Hb').
    exists s', cb'. split_and!; try done.
    - by eapply build_of_build_call_of.
    - destruct Hb' as [Hid' _]. congruence. }
  inversion Hb as [Hd|cb Hd Hbo _ _|cb cp Hd Hbo _ _ Hcp _]; subst.
  - by apply not_elem_of_nil in Hcb.
  - apply list_elem_of_singleton in Hcb as ->. by apply (Hbuild _ Hbo).
  - apply elem_of_cons in Hcb as [->|Hcb]; [by apply (Hbuild _ Hbo)|].
    apply list_elem_of_singleton in Hcb as ->.
    rewrite Hcp in Hdep. apply list_elem_of_singleton in Hdep as ->.
    destruct (Hnode s Hs Hd) as (cb' & Hin' & Hb').
    exists s, cb'. split_and!; try done.
    + by eapply build_of_build_call_of.
    + destruct Hb' as [Hid' _]. destruct Hbo as [Hid _]. congruence.
Qed.

Lemma chain_closed : closed_catalog chain.
Proof.
  unfold closed_catalog, chain.
  repeat (constructor || split || (eexists; reflexivity)).
Defined.

Lemma accepting_queue_accepts : @always_accepts accepting_queue.
Proof. intros before task_id task. reflexivity. Defined.

Lemma dirty_units_built_and_published_witness :
  closed_catalog (services publishing_chain) ∧
  @always_accepts accepting_queue ∧
  @should_push seconds_clock publishing_chain = true ∧
  outcome_of (@create_tasks seconds_clock accepting_queue publishing_chain)
  = Ok {| build_tasks_created := 3; push_tasks_created := 3 |}.
Proof.
  split; [exact chain_closed|]. split; [exact accepting_queue_accepts|].
  split; [reflexivity|].
  destruct (proj1 (@dirty_units_built_and_published seconds_clock accepting_queue
                     publishing_chain chain_closed accepting_queue_accepts) eq_refl)
    as (blocks & _ & _ & Hout).
  exact Hout.
Defined.

Lemma build_tasks_depend_on_dirty_dependencies_witness :
  closed_catalog (services publishing_chain) ∧
  @always_accepts accepting_queue ∧
  ∃ (ids : gmap string TaskId) blocks,
    calls_of (@create_tasks seconds_clock accepting_queue publishing_chain)
      = concat blocks ∧
    Forall2 (build_block publishing_chain ids) (services publishing_chain) blocks.
Proof.
  split; [exact chain_closed|]. split; [exact accepting_queue_accepts|].
  destruct (@build_tasks_depend_on_dirty_dependencies seconds_clock accepting_queue
              publishing_chain chain_closed accepting_queue_accepts)
    as (ids & blocks & Hcalls & Hall & _).
  exists ids, blocks. split; [exact Hcalls|exact Hall].
Defined.

(** ** A missing credential reference (section 7) *)

(** C3, counterexample: on a push to the publish branch with no credential
    reference, nothing is checked: the Build task and the Publish task of the
    dirty unit are both submitted and [create_tasks] returns normally. *)
Lemma missing_secret_still_submits :
  ¬ @missing_credential_aborts seconds_clock accepting_queue missing_secret.
Proof.
  intros Habort. destruct (Habort eq_refl eq_refl) as [[e He] _].
  vm_compute in He. discriminate He.
Qed.

Lemma published_blocks_length `{TimeLib} (self : Scheduler) l blocks :
  Forall2 (λ s b, if dirty s then publish_pair self s b else b = []) l blocks →
  length (concat blocks) = 2 * dirty_count l.
Proof.
  unfold dirty_count.
  induction 1 as [|s b l blocks Hb _ IH]; [done|].
  cbn [concat]. rewrite length_app, IH, filter_cons.
  destruct (dirty s).
  - destruct Hb as (cb & cp & -> & _). rewrite decide_True by done. cbn. lia.
  - subst b. rewrite decide_False by done. cbn. lia.
Qed.

(** C3, as amended: a missing credential reference is not checked when
    publish is required. With a loaded catalog and an accepting queue the
    invocation raises nothing: it submits a Build and a Publish task for
    every dirty unit and returns with their counts; every Publish task it
    submits carries the absent reference, [TASKCLUSTER_SECRET] being
    [None] and its scope [secrets:get:None]. *)
Theorem missing_credential_is_not_checked `{TimeLib} `{Taskcluster} (self : Scheduler) :
  should_push self = true → docker_secret self = None →
  closed_catalog (services self) → always_accepts →
  outcome_of (create_tasks self)
    = Ok {| build_tasks_created := dirty_count (services self);
            push_tasks_created := dirty_count (services self) |} ∧
  length (calls_of (create_tasks self)) = 2 * dirty_count (services self) ∧
  ∀ c, c ∈ calls_of (create_tasks self) → is_push_task (call_task c) →
    task_env (call_task c) "TASKCLUSTER_SECRET" = Some None ∧
    scopes (call_task c) = [ "secrets:get:None"%string ].
Proof.
  intros Hsp Hsecret Hclosed Hacc.
  destruct (create_tasks_published self Hclosed Hacc Hsp)
    as (blocks & Hcalls & Hall & Hout).
  split; [done|]. split.
  - rewrite Hcalls. by eapply published_blocks_length.
  - intros c Hc Hpush.
    pose proof (calls_of_create_tasks_shape self) as Hshape.
    rewrite Forall_forall in Hshape.
    destruct (Hshape c Hc) as (s & _ & _ & [(deps & rel & Ht)|[_ (bid & Ht)]]).
    + rewrite Ht in Hpush. by apply build_task_is_build in Hpush.
    + rewrite Ht. unfold push_task; cbn. rewrite Hsecret. done.
Qed.

Lemma missing_credential_is_not_checked_witness :
  @should_push seconds_clock missing_secret = true ∧
  docker_secret missing_secret = None ∧
  closed_catalog (services missing_secret) ∧
  @always_accepts accepting_queue ∧
  outcome_of (@create_tasks seconds_clock accepting_queue missing_secret)
  = Ok {| build_tasks_created := 1; push_tasks_created := 1 |} ∧
  length (calls_of (@create_tasks seconds_clock accepting_queue missing_secret)) = 2.
Proof.
  assert (Hclosed : closed_catalog (services missing_secret)).
  { repeat (constructor || split || (eexists; reflexivity)). }
  split; [reflexivity|]. split; [reflexivity|]. split; [exact Hclosed|].
  split; [exact accepting_queue_accepts|].
  destruct (@missing_credential_is_not_checked seconds_clock accepting_queue
              missing_secret eq_refl eq_refl Hclosed accepting_queue_accepts)
    as (Hout & Hlen & _).
  split; [exact Hout|exact Hlen].
Defined.

(** ** The order of submission (sections 4.4 and 5) *)

Lemma snoc_split {A} (l : list A) x pre c post :
  l ++ [x] = pre ++ c :: post →
  (post = [] ∧ pre = l ∧ c = x) ∨ (∃ post', post = post' ++ [x] ∧ l = pre ++ c :: post').
Proof.
  intros Heq. induction post as [|y post' _] using rev_ind.
  - left. apply app_inj_tail in Heq as [-> ->]. done.
  - right. exists post'. rewrite app_comm_cons, app_assoc in Heq.
    apply app_inj_tail in Heq as [-> ->]. done.
Qed.

Lemma NoDup_split_eq {A B} (f : A → B) l1 x l2 l1' x' l2' :
  NoDup (map f (l1 ++ x :: l2)) →
  l1 ++ x :: l2 = l1' ++ x' :: l2' → f x = f x' →
  l1 = l1' ∧ x = x' ∧ l2 = l2'.
Proof.
  revert l1'. induction l1 as [|a l1 IH]; intros [|a' l1'] Hnd Heq Hf; cbn in *.
  - by injection Heq as -> ->.
  - exfalso. injection Heq as -> ->. apply NoDup_cons in Hnd as [Hnotin _].
    apply Hnotin. rewrite Hf. apply list_elem_of_fmap_2, elem_of_app. right. by left.
  - exfalso. injection Heq as -> <-. apply NoDup_cons in Hnd as [Hnotin _].
    apply Hnotin. rewrite <- Hf. apply list_elem_of_fmap_2, elem_of_app. right. by left.
  - injection Heq as -> Heq. apply NoDup_cons in Hnd as [_ Hnd].
    destruct (IH l1' Hnd Heq Hf) as (-> & -> & ->). done.
Qed.

Lemma services_get_NoDup svcs v :
  NoDup (map name svcs) → v ∈ svcs → services_get svcs (name v) = Some v.
Proof.
  intros Hnd Hv. destruct (services_get_member svcs v Hv) as [s' Hs'].
  rewrite Hs'. f_equal. apply services_get_Some in Hs' as [Hin Hname].
  apply list_elem_of_split in Hv as (l1 & l2 & ->).
  apply list_elem_of_split in Hin as (l1' & l2' & Heq).
  by destruct (NoDup_split_eq name _ _ _ _ _ _ Hnd Heq (eq_sym Hname)) as (_ & -> & _).
Qed.

Lemma publish_follows_build_snoc calls x :
  publish_follows_build calls → ¬ is_push_task (call_task x) →
  publish_follows_build (calls ++ [x]).
Proof.
  intros HP Hx pre c post Heq Hc.
  apply snoc_split in Heq as [(-> & -> & ->)|(post' & -> & ->)]; [done|].
  by eapply HP.
Qed.

Lemma publish_follows_build_push calls cb cp :
  publish_follows_build (calls ++ [cb]) →
  is_build_task (call_task cb) → call_ok cb = true →
  dependencies (call_task cp) = [call_id cb] →
  publish_follows_build ((calls ++ [cb]) ++ [cp]).
Proof.
  intros HP Hb Hok Hdep pre c post Heq Hc.
  apply snoc_split in Heq as [(-> & -> & ->)|(post' & -> & Heq)].
  - by exists calls, cb.
  - by eapply HP.
Qed.

Lemma earlier_units_snoc_other svcs calls x :
  earlier_units_accepted_first svcs calls → ¬ is_build_task (call_task x) →
  earlier_units_accepted_first svcs (calls ++ [x]).
Proof.
  intros HB Hx before u after pre c post Hsvcs Heq Hc.
  apply snoc_split in Heq as [(-> & -> & ->)|(post' & -> & ->)].
  - by destruct Hc.
  - by eapply HB.
Qed.

Section Ordering.
Context `{TimeLib} `{Taskcluster}.

Lemma completed_block_of self sbt s b :
  completed self sbt s b → block_of self sbt s b.
Proof. inversion 1; subst; by constructor. Qed.

Lemma interrupted_block_of self sbt s e b :
  interrupted self sbt s e b → block_of self sbt s b.
Proof. inversion 1; subst; by constructor. Qed.

Lemma earlier_units_snoc_build self sbt handled s rest calls cb :
  services self = handled ++ s :: rest →
  NoDup (map name (services self)) →
  earlier_units_accepted_first (services self) calls →
  accepted_builds self sbt handled calls →
  build_of self sbt s cb →
  earlier_units_accepted_first (services self) (calls ++ [cb]).
Proof.
  intros Hsvcs Hnd HB HQ Hcb before u after pre c post Hsplit Heq Hc v Hv Hdv Hdep.
  apply snoc_split in Heq as [(-> & -> & ->)|(post' & -> & ->)].
  2: { by eapply HB. }
  assert (Hname : name s = name u).
  { destruct Hcb as (_ & rel & _ & Ht). destruct Hc as [_ Henv].
    rewrite Ht in Henv. by injection Henv. }
  assert (Hpos : handled = before ∧ s = u ∧ rest = after).
  { rewrite Hsvcs in Hnd, Hsplit.
    by eapply (NoDup_split_eq name). }
  destruct Hpos as (<- & <- & <-).
  destruct (HQ v Hv Hdv) as (cv & Hin & Hbv & Hok).
  exists cv. split_and!; try done; [by eapply build_of_build_call_of|].
  destruct Hcb as (_ & rel & _ & Ht). rewrite Ht.
  change (call_id cv ∈ dep_ids (services self) sbt (service_deps s)).
  unfold dep_ids. apply list_elem_of_omap. exists (name v). split.
  - apply list_elem_of_filter. split; [|done]. unfold is_dirty.
    rewrite services_get_NoDup; [done..|].
    rewrite Hsvcs. apply elem_of_app. by left.
  - by destruct Hbv as [Hid _].
Qed.

Lemma ordering_block self sbt handled s rest calls b :
  services self = handled ++ s :: rest →
  NoDup (map name (services self)) →
  block_of self sbt s b →
  publish_follows_build calls →
  earlier_units_accepted_first (services self) calls →
  accepted_builds self sbt handled calls →
  publish_follows_build (calls ++ b) ∧
  earlier_units_accepted_first (services self) (calls ++ b).
Proof.
  intros Hsvcs Hnd Hb HP HB HQ.
  assert (Hbuild : ∀ cb, build_of self sbt s cb →
            is_build_task (call_task cb) ∧ ¬ is_push_task (call_task cb)).
  { intros cb (_ & rel & _ & Ht). rewrite Ht. apply build_task_is_build. }
  inversion Hb as [|cb Hcb|cb cp Hcb Hok Hcp]; subst.
  - by rewrite app_nil_r.
  - split.
    + apply publish_follows_build_snoc; [done|]. by apply Hbuild.
    + by eapply earlier_units_snoc_build.
  - change [cb; cp] with ([cb] ++ [cp]). rewrite app_assoc. split.
    + apply publish_follows_build_push; try done.
      * apply publish_follows_build_snoc; [done|]. by apply Hbuild.
      * by apply Hbuild.
      * by rewrite Hcp.
    + apply earlier_units_snoc_other.
      * by eapply earlier_units_snoc_build.
      * rewrite Hcp. apply push_task_is_push.
Qed.

Lemma accepted_builds_step self sbt handled s calls b :
  completed self sbt s b →
  accepted_builds self sbt handled calls →
  accepted_builds self sbt (handled ++ [s]) (calls ++ b).
Proof.
  intros Hb HQ v Hv Hdv. apply elem_of_app in Hv as [Hv|Hv].
  - destruct (HQ v Hv Hdv) as (cv & Hin & ?). exists cv.
    split; [|done]. apply elem_of_app. by left.
  - apply list_elem_of_singleton in Hv as ->.
    inversion Hb as [Hd|cb Hd Hcb Hok _|cb cp Hd Hcb Hok _ _ _]; subst;
      [congruence| |]; exists cb; (split; [|done]); apply elem_of_app; right; by left.
Qed.

Lemma loop_ordering self sbt n l w res :
  loop_outcome self sbt n l w res →
  ∀ handled,
    services self = handled ++ l →
    NoDup (map name (services self)) →
    publish_follows_build (queue_calls w) →
    earlier_units_accepted_first (services self) (queue_calls w) →
    accepted_builds self sbt handled (queue_calls w) →
    publish_follows_build (queue_calls res.2) ∧
    earlier_units_accepted_first (services self) (queue_calls res.2).
Proof.
  induction 1 as [n w|n s l w e w' Hb|n s l w n' w' res Hb Hl IH];
    intros handled Hsvcs Hnd HP HB HQ.
  - done.
  - apply body_trace in Hb as (b & Hcalls & Hint). cbn. rewrite Hcalls.
    eapply ordering_block; try done. by eapply interrupted_block_of.
  - apply body_trace in Hb as (b & Hcalls & Hcomp & _).
    destruct (ordering_block self sbt handled s l (queue_calls w) b)
      as [HP' HB']; try done; [by apply completed_block_of|].
    apply (IH (handled ++ [s])).
    + by rewrite <- app_assoc.
    + done.
    + by rewrite Hcalls.
    + by rewrite Hcalls.
    + rewrite Hcalls. by apply accepted_builds_step.
Qed.

End Ordering.

(** C2, counterexample: with [a] depending on [b] and the catalog listing
    [a] first, the Build task of [a] is the first call made; it names the
    id reserved for the Build task of [b] among its dependencies although
    nothing was submitted, let alone accepted, before it. *)
Lemma dependent_submitted_before_dependency :
  ¬ dependencies_accepted_first
      (calls_of (@create_tasks seconds_clock accepting_queue late_dependency)).
Proof.
  intros Hord.
  assert (∃ ca cb, calls_of (@create_tasks seconds_clock accepting_queue late_dependency)
                   = [] ++ ca :: [cb] ∧ dependencies (call_task ca) = [ "slug1"%string ])
    as (ca & cb & Hcalls & Hdeps).
  { eexists _, _. split; [vm_compute; reflexivity|reflexivity]. }
  destruct (Hord [] ca [cb] Hcalls "slug1"%string) as (c' & Hin & _).
  - rewrite Hdeps. by left.
  - by apply not_elem_of_nil in Hin.
Qed.

(** C2, as amended: in a catalog with unique unit names, a Publish task is
    submitted immediately after its sole dependency, the Build task of its
    unit, was accepted; and when the Build task of a unit is submitted, the
    Build task of each of its dirty dependencies that comes earlier in the
    catalog's iteration order has been accepted and is among its
    dependencies. Nothing is guaranteed for a dependency that comes later
    in the catalog: the loop follows the catalog, not the dependency
    relation. *)
Theorem submission_follows_catalog_order `{TimeLib} `{Taskcluster} (self : Scheduler) :
  NoDup (map name (services self)) →
  publish_follows_build (calls_of (create_tasks self)) ∧
  earlier_units_accepted_first (services self) (calls_of (create_tasks self)).
Proof.
  intros Hnd.
  apply (loop_ordering _ _ _ _ _ _ (create_tasks_outcome self initial_world) []);
    try done.
  - intros pre c post Heq. by destruct pre.
  - intros before u after pre c post _ Heq. by destruct pre.
  - intros v Hv. by apply not_elem_of_nil in Hv.
Qed.

Lemma submission_follows_catalog_order_witness :
  NoDup (map name (services publishing_chain)) ∧
  publish_follows_build
    (calls_of (@create_tasks seconds_clock accepting_queue publishing_chain)) ∧
  earlier_units_accepted_first (services publishing_chain)
    (calls_of (@create_tasks seconds_clock accepting_queue publishing_chain)).
Proof.
  assert (Hnd : NoDup (map name (services publishing_chain))).
  { apply (bool_decide_unpack _). vm_compute. exact I. }
  split; [exact Hnd|].
  exact (@submission_follows_catalog_order seconds_clock accepting_queue
           publishing_chain Hnd).
Defined.

(** ** Dirtiness propagation (section 4.2) *)

Lemma set_dirty_dirty s : dirty s = true → set_dirty s = s.
Proof. destruct s; cbn. by intros ->. Qed.

Lemma upgrade_static s s' :
  upgrade s s' →
  name s' = name s ∧ context s' = context s ∧
  service_deps s' = service_deps s ∧ (dirty s = true → dirty s' = true).
Proof. by intros [->| ->]. Qed.

Lemma upgrade_same_flag s s' : upgrade s s' → dirty s' = dirty s → s' = s.
Proof.
  intros [->| ->]; [done|]. cbn. intros Hd. by apply set_dirty_dirty.
Qed.

Lemma upgrades_refl a : upgrades a a.
Proof. induction a; constructor; [by left|done]. Qed.

Lemma upgrades_trans a b c : upgrades a b → upgrades b c → upgrades a c.
Proof.
  intros Hab. revert c. induction Hab as [|x y a b Hxy _ IH]; intros c Hbc;
    inversion Hbc as [|y' z b' c' Hyz Hbc']; subst; constructor; [|by apply IH].
  destruct Hxy as [->| ->]; [done|]. destruct Hyz as [->| ->]; by right.
Qed.

Lemma upgrades_mark (P : Service → bool) svcs :
  upgrades svcs (map (λ s, if P s then set_dirty s else s) svcs).
Proof.
  induction svcs as [|s svcs IH]; constructor; [|done].
  destruct (P s); [by right|by left].
Qed.

Lemma upgrades_length a b : upgrades a b → length a = length b.
Proof. apply Forall2_length. Qed.

(** Equal flags at both ends of a chain of markings: nothing was marked. *)
Lemma upgrades_sandwich a b c :
  upgrades a b → upgrades b c → map dirty c = map dirty a → b = a ∧ c = a.
Proof.
  intros Hab. revert c. induction Hab as [|x y a b Hxy _ IH]; intros c Hbc Hflags;
    inversion Hbc as [|y' z b' c' Hyz Hbc']; subst; [done|].
  cbn in Hflags. injection Hflags as Hz Hrest.
  destruct (IH _ Hbc' Hrest) as [-> ->].
  assert (Hy : dirty y = dirty x).
  { destruct (dirty x) eqn:Hx.
    - by apply (upgrade_static x y).
    - destruct (dirty y) eqn:Hy; [|done].
      apply upgrade_static in Hyz as (_ & _ & _ & Hmono).
      pose proof (Hmono Hy). congruence. }
  apply upgrade_same_flag in Hxy as ->; [|done].
  apply upgrade_same_flag in Hyz as ->; done.
Qed.

Lemma upgrades_same_flags a b :
  upgrades a b → map dirty b = map dirty a → b = a.
Proof.
  intros Hab Hflags.
  by destruct (upgrades_sandwich a b b Hab (upgrades_refl b) Hflags).
Qed.

Lemma upgrades_clean_count a b :
  upgrades a b →
  (clean_count b ≤ clean_count a)%nat ∧
  (map dirty b ≠ map dirty a → (clean_count b < clean_count a)%nat).
Proof.
  unfold clean_count.
  induction 1 as [|x y a b Hxy _ [IHle IHlt]]; [done|].
  rewrite !filter_cons. cbn [map].
  destruct Hxy as [->| ->].
  - destruct (decide (dirty x = false)); cbn; (split; [lia|]); intros Hne;
      assert (map dirty b ≠ map dirty a) by congruence;
      specialize (IHlt ltac:(done)); lia.
  - rewrite (decide_False (P := dirty (set_dirty x) = false)) by done.
    destruct (decide (dirty x = false)) as [Hx|Hx]; cbn.
    + split; lia.
    + split; [lia|]. intros Hne. apply not_false_is_true in Hx.
      assert (map dirty b ≠ map dirty a).
      { intros Heq. apply Hne. cbn. by rewrite Hx, Heq. }
      specialize (IHlt ltac:(done)). lia.
Qed.

Lemma map_fixed_elem {A} (f : A → A) (l : list A) x :
  map f l = l → x ∈ l → f x = x.
Proof.
  induction l as [|y l IH]; cbn; intros Heq Hx.
  - by apply not_elem_of_nil in Hx.
  - injection Heq as Hy Hl. apply elem_of_cons in Hx as [->|Hx]; [done|by apply IH].
Qed.

Lemma mark_dependents_upgrades u svcs : upgrades svcs (mark_dependents u svcs).
Proof. apply (upgrades_mark (λ d, bool_decide (u ∈ service_deps d))). Qed.

Lemma mark_named_upgrades names svcs : upgrades svcs (mark_named names svcs).
Proof. apply (upgrades_mark (λ s, bool_decide (name s ∈ names))). Qed.

Lemma scan_upgrades n i svcs : upgrades svcs (scan n i svcs).
Proof.
  revert i svcs. induction n as [|n IH]; intros i svcs; cbn; [apply upgrades_refl|].
  eapply upgrades_trans; [|apply IH].
  destruct (svcs !! i) as [u|]; [|apply upgrades_refl].
  destruct (dirty u); [apply mark_dependents_upgrades|apply upgrades_refl].
Qed.

(** A scan that changes no flag found every dependent of the dirty units
    it visited already dirty. *)
Lemma scan_fixed n i svcs :
  map dirty (scan n i svcs) = map dirty svcs →
  ∀ j u, (i ≤ j < i + n)%nat → svcs !! j = Some u → dirty u = true →
    ∀ d, d ∈ svcs → name u ∈ service_deps d → dirty d = true.
Proof.
  revert i svcs. induction n as [|n IH]; intros i svcs Hflags j u Hj Hu Hdu d Hd Hdep;
    [lia|].
  cbn [scan] in Hflags.
  set (svcs1 := match svcs !! i with
                | Some u0 => if dirty u0 then mark_dependents (name u0) svcs else svcs
                | None => svcs
                end) in *.
  assert (H1 : upgrades svcs svcs1).
  { unfold svcs1. destruct (svcs !! i) as [u0|]; [|apply upgrades_refl].
    destruct (dirty u0); [apply mark_dependents_upgrades|apply upgrades_refl]. }
  destruct (upgrades_sandwich _ _ _ H1 (scan_upgrades n (S i) svcs1) Hflags)
    as [Heq1 Heq2].
  destruct (decide (j = i)) as [->|Hne].
  - unfold svcs1 in Heq1. rewrite Hu, Hdu in Heq1.
    pose proof (map_fixed_elem _ _ d Heq1 Hd) as Hfix. cbn in Hfix.
    rewrite bool_decide_eq_true_2 in Hfix by done.
    rewrite <- Hfix. done.
  - apply (IH (S i) svcs) with (j := j) (u := u); try done; [|lia].
    rewrite Heq1 in Heq2. by rewrite Heq2.
Qed.

Lemma full_pass_fixed svcs :
  map dirty (full_pass svcs) = map dirty svcs → closed_under_dependents svcs.
Proof.
  intros Hflags u d Hu Hd Hdu Hdep.
  apply list_elem_of_lookup in Hu as [j Hj].
  apply (scan_fixed (length svcs) 0 svcs Hflags j u); try done.
  apply lookup_lt_Some in Hj. lia.
Qed.

Lemma full_pass_upgrades svcs : upgrades svcs (full_pass svcs).
Proof. apply scan_upgrades. Qed.

Lemma propagate_upgrades fuel svcs : upgrades svcs (propagate fuel svcs).
Proof.
  revert svcs. induction fuel as [|fuel IH]; intros svcs; cbn; [apply upgrades_refl|].
  case_bool_decide; [apply full_pass_upgrades|].
  eapply upgrades_trans; [apply full_pass_upgrades|apply IH].
Qed.

(** With more fuel than clean units, [propagate] stops on a pass that
    changes nothing. *)
Lemma propagate_fixed_point fuel svcs :
  (clean_count svcs < fuel)%nat →
  map dirty (full_pass (propagate fuel svcs)) = map dirty (propagate fuel svcs).
Proof.
  revert svcs. induction fuel as [|fuel IH]; intros svcs Hfuel; [lia|].
  cbn [propagate]. case_bool_decide as Hflags.
  - rewrite (upgrades_same_flags _ _ (full_pass_upgrades svcs) Hflags). done.
  - apply IH.
    destruct (upgrades_clean_count _ _ (full_pass_upgrades svcs)) as [_ Hlt].
    specialize (Hlt Hflags). lia.
Qed.

Lemma clean_count_le_length svcs : (clean_count svcs ≤ length svcs)%nat.
Proof. apply length_filter. Qed.

Lemma units_owning_path_upgrades a b p :
  upgrades a b → unitsOwningPath b p = unitsOwningPath a p.
Proof.
  unfold unitsOwningPath.
  induction 1 as [|x y a b Hxy _ IH]; [done|].
  apply upgrade_static in Hxy as (Hname & Hctx & _ & _).
  assert (Howns : owns y p = owns x p) by (unfold owns; by rewrite Hctx).
  rewrite !filter_cons, Howns.
  destruct (decide (owns x p = true)); cbn; by rewrite ?Hname, IH.
Qed.

Lemma named_owners_dirty_upgrades a b p :
  upgrades a b → named_owners_dirty a p → named_owners_dirty b p.
Proof.
  intros Hab Ha s' Hs' Hname.
  apply list_elem_of_lookup in Hs' as [i Hi].
  destruct (Forall2_lookup_r _ _ _ _ _ Hab Hi) as (s & Hs & Hup).
  rewrite (units_owning_path_upgrades a b p Hab) in Hname.
  apply upgrade_static in Hup as (Hn & _ & _ & Hmono).
  apply Hmono, Ha; [by eapply list_elem_of_lookup_2|by rewrite <- Hn].
Qed.

Lemma mark_named_marks names svcs s :
  s ∈ mark_named names svcs → name s ∈ names → dirty s = true.
Proof.
  unfold mark_named. intros Hs Hname.
  apply list_elem_of_fmap in Hs as (s0 & -> & _).
  case_bool_decide as Hin; [done|]. by destruct Hin.
Qed.

Lemma mark_owners_upgrades paths svcs : upgrades svcs (mark_owners svcs paths).
Proof.
  unfold mark_owners. revert svcs.
  induction paths as [|q paths IH]; intros svcs; cbn; [apply upgrades_refl|].
  eapply upgrades_trans; [apply mark_named_upgrades|apply IH].
Qed.

Lemma mark_owners_marks paths svcs p :
  p ∈ paths → named_owners_dirty (mark_owners svcs paths) p.
Proof.
  revert svcs. induction paths as [|q paths IH]; intros svcs Hp.
  - by apply not_elem_of_nil in Hp.
  - change (mark_owners svcs (q :: paths))
      with (mark_owners (mark_named (unitsOwningPath svcs q) svcs) paths).
    apply elem_of_cons in Hp as [->|Hp]; [|by apply IH].
    eapply named_owners_dirty_upgrades; [apply mark_owners_upgrades|].
    intros s Hs Hname.
    rewrite (units_owning_path_upgrades _ _ q (mark_named_upgrades _ svcs)) in Hname.
    by eapply mark_named_marks.
Qed.

Lemma mark_owners_fixed paths svcs :
  (∀ p, p ∈ paths → named_owners_dirty svcs p) → mark_owners svcs paths = svcs.
Proof.
  induction paths as [|q paths IH]; intros Hall; [done|].
  change (mark_owners svcs (q :: paths))
    with (mark_owners (mark_named (unitsOwningPath svcs q) svcs) paths).
  assert (Hq : mark_named (unitsOwningPath svcs q) svcs = svcs).
  { unfold mark_named. rewrite <- (map_id svcs) at 2.
    apply map_ext_in. intros s Hs. apply list_elem_of_In in Hs.
    case_bool_decide as Hin; [|done].
    apply set_dirty_dirty, (Hall q); [by left|done|done]. }
  rewrite Hq. apply IH. intros p Hp. apply Hall. by right.
Qed.

Lemma mark_changed_dirty_upgrades svcs paths :
  upgrades svcs (mark_changed_dirty svcs paths).
Proof.
  unfold mark_changed_dirty.
  eapply upgrades_trans; [apply mark_owners_upgrades|apply propagate_upgrades].
Qed.

Lemma mark_changed_dirty_pass svcs paths :
  full_pass (mark_changed_dirty svcs paths) = mark_changed_dirty svcs paths.
Proof.
  apply upgrades_same_flags; [apply full_pass_upgrades|].
  unfold mark_changed_dirty. apply propagate_fixed_point.
  pose proof (clean_count_le_length (mark_owners svcs paths)). lia.
Qed.

Lemma mark_changed_dirty_again marked paths :
  (∀ p, p ∈ paths → named_owners_dirty marked p) →
  full_pass marked = marked →
  mark_changed_dirty marked paths = marked.
Proof.
  intros Hnamed Hpass. unfold mark_changed_dirty.
  rewrite (mark_owners_fixed paths marked Hnamed).
  cbn [propagate]. rewrite Hpass. by rewrite bool_decide_eq_true_2.
Qed.

(** C9: for every catalog and every list of changed paths, after
    [mark_changed_dirty] every unit whose build context contains a changed
    path is dirty, every transitive dependent of a dirty unit is dirty, and
    running the propagator again on the result changes nothing. *)
Theorem mark_changed_dirty_fixed_point (svcs : Services) (paths : list Path) :
  (∀ p s, p ∈ paths → s ∈ mark_changed_dirty svcs paths →
          owns s p = true → dirty s = true) ∧
  (∀ d u, transitive_dependent (mark_changed_dirty svcs paths) d u →
          dirty u = true → dirty d = true) ∧
  mark_changed_dirty (mark_changed_dirty svcs paths) paths
    = mark_changed_dirty svcs paths.
Proof.
  assert (Hnamed : ∀ p, p ∈ paths →
            named_owners_dirty (mark_changed_dirty svcs paths) p).
  { intros p Hp. unfold mark_changed_dirty.
    eapply named_owners_dirty_upgrades; [apply propagate_upgrades|].
    by apply mark_owners_marks. }
  assert (Hclosed : closed_under_dependents (mark_changed_dirty svcs paths)).
  { apply full_pass_fixed. by rewrite mark_changed_dirty_pass. }
  split_and!.
  - intros p s Hp Hs Howns. apply (Hnamed p Hp s Hs).
    unfold unitsOwningPath. apply list_elem_of_fmap_2.
    by apply list_elem_of_filter.
  - intros d u Htd. induction Htd as [d u (Hd & Hu & Hdep)|d m u (Hd & Hm & Hdep) _ IH];
      intros Hdu.
    + by apply (Hclosed u d).
    + apply (Hclosed m d); try done. by apply IH.
  - apply mark_changed_dirty_again; [done|]. apply mark_changed_dirty_pass.
Qed.

(** A change in the context of [a] makes [a], [b] and [c] dirty; a change
    in the context of [c] makes only [c] dirty; a change outside every
    context makes nothing dirty. *)
Example change_in_a :
  map dirty (mark_changed_dirty clean_chain [[ "services"; "a"; "setup.sh" ]])
  = [true; true; true].
Proof. reflexivity. Qed.

Example change_in_c :
  map dirty (mark_changed_dirty clean_chain [[ "services"; "c"; "setup.sh" ]])
  = [false; false; true].
Proof. reflexivity. Qed.

Example change_elsewhere :
  map dirty (mark_changed_dirty clean_chain [[ "README.md" ]])
  = [false; false; false].
Proof. reflexivity. Qed.

Lemma mark_changed_dirty_fixed_point_witness :
  [ "services"; "a"; "setup.sh" ]%string ∈ [[ "services"; "a"; "setup.sh" ]]%string ∧
  unit_ "a" [] true ∈ mark_changed_dirty clean_chain [[ "services"; "a"; "setup.sh" ]] ∧
  owns (unit_ "a" [] true) [ "services"; "a"; "setup.sh" ] = true ∧
  dirty (unit_ "a" [] true) = true.
Proof.
  assert (Hp : [ "services"; "a"; "setup.sh" ]%string
               ∈ [[ "services"; "a"; "setup.sh" ]]%string) by left.
  assert (Hs : unit_ "a" [] true
               ∈ mark_changed_dirty clean_chain [[ "services"; "a"; "setup.sh" ]])
    by left.
  split; [exact Hp|]. split; [exact Hs|]. split; [reflexivity|].
  exact (proj1 (mark_changed_dirty_fixed_point clean_chain
                  [[ "services"; "a"; "setup.sh" ]]) _ _ Hp Hs eq_refl).
Defined.

(** ** The scenarios of section 8 *)

(** A change in the context of [a]: three Build tasks, the task of [b]
    depending on the task of [a] and the task of [c] on the task of [b]. *)
Example scenario_change_in_a :
  map (λ c, (call_id c, dependencies (call_task c), call_ok c))
    (calls_of (@main seconds_clock accepting_queue _ change_of_a_args))
  = [("slug0", [], true); ("slug1", [ "slug0" ], true); ("slug2", [ "slug1" ], true)]%string
  ∧ outcome_of (@main seconds_clock accepting_queue _ change_of_a_args) = Ok 0%Z.
Proof. split; reflexivity. Qed.

(** The same change when the queue refuses the task of [a]: the one call
    made is the refused one, no call is made for [b] or [c], and the
    invocation fails. *)
Example scenario_submission_failure :
  map (λ c, (call_id c, call_ok c))
    (calls_of (@main seconds_clock (refusing_queue "slug0") _ change_of_a_args))
  = [("slug0"%string, false)]
  ∧ outcome_of (@main seconds_clock (refusing_queue "slug0") _ change_of_a_args)
    = Raise TaskclusterFailure.
Proof. split; reflexivity. Qed.

(** * Further properties of the scheduler *)

(** ** The counts of the closing log line *)

Section Counts.
Context `{TimeLib} `{Taskcluster}.

Lemma completed_block_counts self sbt s b :
  completed self sbt s b →
  build_calls b = (if dirty s then 1 else 0) ∧
  push_calls b = (if dirty s then if should_push self then 1 else 0 else 0) ∧
  settled b.
Proof.
  unfold build_calls, push_calls, settled.
  inversion 1 as [Hd|cb Hd Hcb Hok Hsp|cb cp Hd Hcb Hok Hsp Hcp Hokp]; subst;
    rewrite Hd, ?Hsp; [done| |].
  - destruct Hcb as (_ & rel & _ & Ht). destruct cb as [id t ok]; cbn in *; subst.
    split_and!; [reflexivity|reflexivity|by repeat constructor].
  - destruct Hcb as (_ & rel & _ & Ht).
    destruct cb as [id t ok], cp as [idp tp okp]; cbn in *; subst.
    split_and!; [reflexivity|reflexivity|by repeat constructor].
Qed.

Lemma completed_counts self sbt l blocks :
  Forall2 (completed self sbt) l blocks →
  build_calls (concat blocks) = dirty_count l ∧
  push_calls (concat blocks) = (if should_push self then dirty_count l else 0) ∧
  settled (concat blocks).
Proof.
  induction 1 as [|s b l blocks Hb _ (IHb & IHp & IHs)].
  - destruct (should_push self); split_and!; (reflexivity || constructor).
  - apply completed_block_counts in Hb as (Hbb & Hbp & Hbs).
    unfold build_calls, push_calls, settled, dirty_count in *. cbn [concat].
    rewrite !filter_app, !length_app, IHb, IHp, Hbb, Hbp, filter_cons, Forall_app.
    destruct (dirty s).
    + rewrite decide_True by done. destruct (should_push self); cbn; split_and!; done || lia.
    + rewrite decide_False by done. destruct (should_push self); cbn; split_and!; done || lia.
Qed.

Lemma create_tasks_returned self n :
  outcome_of (create_tasks self) = Ok n →
  ∃ blocks,
    calls_of (create_tasks self) = concat blocks ∧
    Forall2 (completed self (build_ids ∅ 0 (map name (services self))))
      (services self) blocks ∧
    n = bump no_counts (dirty_count (services self)) (should_push self).
Proof.
  unfold outcome_of, calls_of, run. intros Hout.
  pose proof (create_tasks_outcome self initial_world) as Hloop.
  apply loop_trace in Hloop
    as (ran & rest & blocks & last & Hsplit & Hall & Hcalls & Hres).
  rewrite Hout in Hres. destruct Hres as (-> & -> & ->).
  rewrite app_nil_r in Hsplit, Hcalls. subst ran.
  exists blocks. by rewrite Hcalls.
Qed.

End Counts.

(** X1: when [create_tasks] returns, the counts of its closing log line are
    exact: [build_tasks_created] is the number of Build tasks submitted,
    which is the number of dirty units, [push_tasks_created] is the number
    of Publish tasks submitted, which is that number again when publishing
    and 0 otherwise, and every call made was accepted by the queue. *)
Theorem create_tasks_counts_exact `{TimeLib} `{Taskcluster} (self : Scheduler) (n : Counts) :
  outcome_of (create_tasks self) = Ok n →
  build_tasks_created n = build_calls (calls_of (create_tasks self)) ∧
  build_tasks_created n = dirty_count (services self) ∧
  push_tasks_created n = push_calls (calls_of (create_tasks self)) ∧
  push_tasks_created n = (if should_push self then dirty_count (services self) else 0) ∧
  settled (calls_of (create_tasks self)).
Proof.
  intros Hout.
  destruct (create_tasks_returned self n Hout) as (blocks & Hcalls & Hall & ->).
  destruct (completed_counts _ _ _ _ Hall) as (Hb & Hp & Hs).
  rewrite Hcalls, Hb, Hp. cbn. by destruct (should_push self).
Qed.

Lemma create_tasks_counts_exact_witness :
  outcome_of (@create_tasks seconds_clock accepting_queue publishing_chain)
    = Ok {| build_tasks_created := 3; push_tasks_created := 3 |} ∧
  build_calls (calls_of (@create_tasks seconds_clock accepting_queue publishing_chain)) = 3 ∧
  push_calls (calls_of (@create_tasks seconds_clock accepting_queue publishing_chain)) = 3.
Proof.
  assert (Hout : outcome_of (@create_tasks seconds_clock accepting_queue publishing_chain)
                 = Ok {| build_tasks_created := 3; push_tasks_created := 3 |})
    by reflexivity.
  split; [exact Hout|].
  destruct (@create_tasks_counts_exact seconds_clock accepting_queue
              publishing_chain _ Hout) as (Hb & _ & Hp & _).
  split; [symmetry; exact Hb|symmetry; exact Hp].
Defined.

(** ** Errors other than a refusal by the queue *)

Section Errors.
Context `{TimeLib} `{Taskcluster}.

Lemma dirty_dep_tasks_error svcs sbt deps w e w' :
  dirty_dep_tasks svcs sbt deps w = (Raise e, w') →
  ∃ dep, e = KeyError dep ∧ dep ∈ deps ∧
    (services_get svcs dep = None ∨
     ∃ s', services_get svcs dep = Some s' ∧ dirty s' = true ∧ sbt !! dep = None).
Proof.
  induction deps as [|dep deps IH]; [done|].
  cbn [dirty_dep_tasks]. unfold mbind, M_bind.
  destruct (services_get svcs dep) as [s'|] eqn:Hs; cbn.
  2: { intros [= <- <-]. exists dep. split; [done|]. split; [by left|by left]. }
  assert (Hrest : ∀ r, dirty_dep_tasks svcs sbt deps w = r → r = (Raise e, w') →
            ∃ dep0, e = KeyError dep0 ∧ dep0 ∈ dep :: deps ∧
              (services_get svcs dep0 = None ∨
               ∃ s0, services_get svcs dep0 = Some s0 ∧ dirty s0 = true ∧
                     sbt !! dep0 = None)).
  { intros r Hr ->. destruct (IH Hr) as (dep0 & ? & ? & ?).
    exists dep0. split; [done|]. split; [by right|done]. }
  destruct (dirty s') eqn:Hd.
  - unfold mbind, M_bind. destruct (sbt !! dep) as [id|] eqn:Hid; cbn.
    + destruct (dirty_dep_tasks svcs sbt deps w) as [[ids|e0] w0] eqn:Hr; [done|].
      intros Heq. by apply (Hrest _ eq_refl).
    + intros [= <- <-]. exists dep. split; [done|]. split; [by left|].
      right. by exists s'.
  - intros Heq. by apply (Hrest _ Heq).
Qed.

Lemma create_tasks_body_error self sbt n s w e w' :
  create_tasks_body self sbt n s w = (Raise e, w') →
  e = TaskclusterFailure ∨
  (dirty s = true ∧
   ((e = ValueError ∧ relative_to (dockerfile s) (context s) = None) ∨
    (∃ dep, e = KeyError dep ∧ dep ∈ service_deps s ∧
       (services_get (services self) dep = None ∨
        ∃ s', services_get (services self) dep = Some s' ∧ sbt !! dep = None)) ∨
    (e = KeyError (name s) ∧ sbt !! name s = None))).
Proof.
  unfold create_tasks_body. destruct (dirty s) eqn:Hd; cbn; [|done].
  unfold mbind, M_bind.
  destruct (dirty_dep_tasks (services self) sbt (service_deps s) w)
    as [[ids|e0] w0] eqn:Hdeps.
  2: { intros [= <- <-]. right. split; [done|]. right. left.
       apply dirty_dep_tasks_error in Hdeps as (dep & -> & Hin & [Hnone|(s' & Hs' & _ & Hid)]).
       - exists dep. split; [done|]. split; [done|by left].
       - exists dep. split; [done|]. split; [done|]. right. by exists s'. }
  destruct (relative_to (dockerfile s) (context s)) as [rel|] eqn:Hrel; cbn.
  2: { intros [= <- <-]. right. split; [done|]. by left. }
  destruct (sbt !! name s) as [bid|] eqn:Hbid; cbn.
  2: { intros [= <- <-]. right. split; [done|]. right. by right. }
  unfold createTask.
  destruct (queue_accepts (queue_calls w0) bid _).
  2: { intros [= <- <-]. by left. }
  destruct (should_push self); cbn; [|done].
  match goal with |- context [queue_accepts ?l ?i ?t] =>
    destruct (queue_accepts l i t) end; [done|].
  intros [= <- <-]. by left.
Qed.

Lemma for_each_body_error self sbt l n w e w' :
  for_each (create_tasks_body self sbt) n l w = (Raise e, w') →
  ∃ s n0 w0 w1, s ∈ l ∧ create_tasks_body self sbt n0 s w0 = (Raise e, w1).
Proof.
  revert n w. induction l as [|s l IH]; intros n w; [done|].
  cbn [for_each]. unfold mbind, M_bind.
  destruct (create_tasks_body self sbt n s w) as [[n1|e1] w1] eqn:Hb.
  - intros Hrest. destruct (IH _ _ Hrest) as (s0 & n0 & w0 & w2 & Hin & Hbody).
    exists s0, n0, w0, w2. split; [by right|done].
  - intros [= <- <-]. exists s, n, w, w1. split; [by left|done].
Qed.

End Errors.

(** X2: an exception of [create_tasks] other than the queue's
    [TaskclusterFailure] comes from a dirty unit of the catalog: it is a
    [ValueError] for a build file that does not lie under the unit's build
    context, or the [KeyError] of a dependency name that is not a key of the
    catalog; every creation call made before it was accepted. *)
Theorem create_tasks_error_cause `{TimeLib} `{Taskcluster} (self : Scheduler)
    (e : Exception) :
  outcome_of (create_tasks self) = Raise e →
  e ≠ TaskclusterFailure →
  settled (calls_of (create_tasks self)) ∧
  ∃ s, s ∈ services self ∧ dirty s = true ∧
    ((e = ValueError ∧ relative_to (dockerfile s) (context s) = None) ∨
     (∃ dep, e = KeyError dep ∧ dep ∈ service_deps s ∧
             services_get (services self) dep = None)).
Proof.
  intros Hout Hne. split.
  { assert (Hff : fail_fast (create_tasks self initial_world).1
                            (queue_calls (create_tasks self initial_world).2)).
    { apply create_tasks_fail_fast_from. constructor. }
    unfold outcome_of, run in Hout. rewrite Hout in Hff.
    by destruct Hff as [[_ ?]|[? _]]. }
  unfold outcome_of, run, create_tasks, mbind, M_bind in Hout.
  rewrite alloc_build_tasks_spec in Hout.
  set (sbt := build_ids ∅ (slug_calls initial_world) (map name (services self))) in *.
  destruct (for_each _ _ _ _) as [r w'] eqn:Hloop. cbn in Hout. subst r.
  apply for_each_body_error in Hloop as (s & n0 & w0 & w1 & Hs & Hbody).
  assert (Hkey : ∀ s', s' ∈ services self → is_Some (sbt !! name s')).
  { intros s' Hs'. apply build_ids_is_Some. left. by apply list_elem_of_fmap_2. }
  apply create_tasks_body_error in Hbody
    as [->|(Hd & [[-> Hrel]|[(dep & -> & Hdep & [Hnone|(s' & Hs' & Hid)])|[-> Hid]]])];
    [done|..].
  - exists s. split_and!; [done..|]. by left.
  - exists s. split_and!; [done..|]. right. by exists dep.
  - exfalso. apply services_get_Some in Hs' as [Hin <-].
    destruct (Hkey s' Hin) as [? ?]. congruence.
  - exfalso. destruct (Hkey s Hs) as [? ?]. congruence.
Qed.

Lemma create_tasks_error_cause_witness :
  outcome_of (@create_tasks seconds_clock accepting_queue dangling_dependency)
    = Raise (KeyError "ghost") ∧
  KeyError "ghost" ≠ TaskclusterFailure ∧
  settled (calls_of (@create_tasks seconds_clock accepting_queue dangling_dependency)).
Proof.
  assert (Hout : outcome_of (@create_tasks seconds_clock accepting_queue dangling_dependency)
                 = Raise (KeyError "ghost")) by reflexivity.
  assert (Hne : KeyError "ghost" ≠ TaskclusterFailure) by discriminate.
  split; [exact Hout|]. split; [exact Hne|].
  exact (proj1 (@create_tasks_error_cause seconds_clock accepting_queue
                  dangling_dependency _ Hout Hne)).
Defined.

(** ** Clean units are not looked at *)

Section CleanUnits.
Context `{TimeLib} `{Taskcluster}.

Lemma for_each_clean self sbt l n w :
  Forall (λ s, dirty s = false) l →
  for_each (create_tasks_body self sbt) n l w = (Ok n, w).
Proof.
  induction 1 as [|s l Hs _ IH]; [done|].
  cbn [for_each]. unfold mbind, M_bind, create_tasks_body. rewrite Hs. cbn.
  exact IH.
Qed.

Lemma dirty_units_closed_ready self k s :
  dirty_units_closed (services self) → s ∈ services self → dirty s = true →
  ready self (build_ids ∅ k (map name (services self))) s.
Proof.
  intros Hclosed Hs Hd. unfold dirty_units_closed in Hclosed.
  rewrite Forall_forall in Hclosed. destruct (Hclosed s Hs Hd) as [Hdeps Hrel].
  assert (Hkey : ∀ s', s' ∈ services self →
            is_Some (build_ids ∅ k (map name (services self)) !! name s')).
  { intros s' Hs'. apply build_ids_is_Some. left. by apply list_elem_of_fmap_2. }
  split; [|split; [done|by apply Hkey]].
  eapply Forall_impl; [exact Hdeps|]. intros dep [s' Hs'].
  exists s'. split; [done|]. intros _.
  apply services_get_Some in Hs' as [Hin <-]. by apply Hkey.
Qed.

End CleanUnits.

(** X3: when no unit is dirty, [create_tasks] makes no call to the queue
    and returns with both counts 0, whatever the queue would answer and
    whatever the state of the catalog (dangling dependencies included); it
    still draws one task id per unit of the catalog. *)
Theorem nothing_dirty_nothing_submitted `{TimeLib} `{Taskcluster}
    (self : Scheduler) (w : World) :
  Forall (λ s, dirty s = false) (services self) →
  (create_tasks self w).1
    = Ok {| build_tasks_created := 0; push_tasks_created := 0 |} ∧
  queue_calls (create_tasks self w).2 = queue_calls w ∧
  slug_calls (create_tasks self w).2 = slug_calls w + length (services self).
Proof.
  intros Hclean. unfold create_tasks, mbind, M_bind.
  rewrite alloc_build_tasks_spec, for_each_clean by done.
  cbn. by rewrite length_map.
Qed.

Lemma nothing_dirty_nothing_submitted_witness :
  Forall (λ s, dirty s = false) (services nothing_dirty) ∧
  (@create_tasks seconds_clock (refusing_queue "slug0") nothing_dirty initial_world).1
    = Ok {| build_tasks_created := 0; push_tasks_created := 0 |} ∧
  queue_calls
    (@create_tasks seconds_clock (refusing_queue "slug0") nothing_dirty initial_world).2
    = [].
Proof.
  assert (Hclean : Forall (λ s, dirty s = false) (services nothing_dirty)).
  { repeat constructor. }
  split; [exact Hclean|].
  destruct (@nothing_dirty_nothing_submitted seconds_clock (refusing_queue "slug0")
              nothing_dirty initial_world Hclean) as (Hout & Hcalls & _).
  split; [exact Hout|exact Hcalls].
Defined.

(** X4: only the dirty units need to be sound. If every dirty unit has its
    dependencies in the catalog and its build file under its build context,
    and the queue accepts every call, [create_tasks] returns with one Build
    task counted per dirty unit; a clean unit with a dangling dependency or
    a misplaced build file goes unnoticed. *)
Theorem sound_dirty_units_suffice `{TimeLib} `{Taskcluster} (self : Scheduler) :
  dirty_units_closed (services self) → always_accepts →
  outcome_of (create_tasks self)
    = Ok {| build_tasks_created := dirty_count (services self);
            push_tasks_created :=
              if should_push self then dirty_count (services self) else 0 |} ∧
  build_calls (calls_of (create_tasks self)) = dirty_count (services self).
Proof.
  intros Hclosed Hacc.
  pose proof (create_tasks_outcome self initial_world) as Hloop.
  apply loop_trace in Hloop
    as (ran & rest & blocks & last & Hsplit & Hall & Hcalls & Hres).
  unfold outcome_of, calls_of, run.
  destruct (create_tasks self initial_world).1 as [n'|e].
  - destruct Hres as (-> & -> & ->). rewrite app_nil_r in Hsplit, Hcalls.
    subst ran. rewrite Hcalls.
    destruct (completed_counts _ _ _ _ Hall) as (Hb & _ & _).
    split; [|done]. unfold bump; cbn. by destruct (should_push self).
  - exfalso. destruct Hres as (s & rest' & -> & Hint).
    assert (Hs : s ∈ services self).
    { rewrite Hsplit. apply elem_of_app. right. by left. }
    inversion Hint as [Hd Hne Hnr|cb Hd Hb Hok [l Hans] He
                      |cb cp Hd Hb Hok Hsp Hcp Hokp [l Hans] He]; subst.
    + apply Hnr. by apply dirty_units_closed_ready.
    + rewrite Hacc in Hans. congruence.
    + rewrite Hacc in Hans. congruence.
Qed.

Lemma sound_dirty_units_suffice_witness :
  dirty_units_closed (services with_broken_clean_unit) ∧
  @always_accepts accepting_queue ∧
  outcome_of (@create_tasks seconds_clock accepting_queue with_broken_clean_unit)
    = Ok {| build_tasks_created := 1; push_tasks_created := 0 |}.
Proof.
  assert (Hclosed : dirty_units_closed (services with_broken_clean_unit)).
  { constructor; [discriminate|]. constructor; [|constructor].
    intros _. split; [constructor|eexists; reflexivity]. }
  split; [exact Hclosed|]. split; [exact accepting_queue_accepts|].
  exact (proj1 (@sound_dirty_units_suffice seconds_clock accepting_queue
                  with_broken_clean_unit Hclosed accepting_queue_accepts)).
Defined.

(** ** Task ids *)

Section TaskIds.
Context `{TimeLib} `{Taskcluster}.

Lemma build_ids_notin acc k keys key :
  key ∉ keys → build_ids acc k keys !! key = acc !! key.
Proof.
  revert acc k. induction keys as [|x keys IH]; intros acc k Hnotin; [done|].
  apply not_elem_of_cons in Hnotin as [Hne Hnotin]. cbn.
  rewrite IH by done. by rewrite lookup_insert_ne.
Qed.

(** With distinct keys, the [i]-th key gets the [i]-th slug drawn. *)
Lemma build_ids_lookup_index acc k keys i key :
  NoDup keys → keys !! i = Some key →
  build_ids acc k keys !! key = Some (slug_supply (k + i)).
Proof.
  revert acc k i. induction keys as [|x keys IH]; intros acc k i Hnd Hi; [done|].
  apply NoDup_cons in Hnd as [Hnotin Hnd]. destruct i as [|i]; cbn in *.
  - injection Hi as ->. rewrite build_ids_notin by done.
    rewrite lookup_insert_eq. do 2 f_equal. lia.
  - rewrite (IH _ _ i) by done. do 2 f_equal. lia.
Qed.

Lemma ids_fresh_weaken k0 N m m' w :
  (m ≤ m')%nat → ids_fresh k0 N m w → ids_fresh k0 N m' w.
Proof.
  intros Hle (idxs & Hids & Hnd & Hall & Hk). exists idxs. split_and!; try done.
  eapply Forall_impl; [exact Hall|]. intros j [?|?]; [left; lia|by right].
Qed.

Lemma ids_fresh_build k0 N m w c :
  (m < N)%nat → call_id c = slug_supply (k0 + m) →
  ids_fresh k0 N m w → ids_fresh k0 N (S m) (add_call w c).
Proof.
  intros Hm Hid (idxs & Hids & Hnd & Hall & Hk).
  exists (idxs ++ [k0 + m]). cbn. rewrite !map_app, Hids. cbn. rewrite Hid.
  split_and!; try done.
  - apply NoDup_app. split_and!; [done| |apply NoDup_singleton].
    intros j Hj Hj'. apply list_elem_of_singleton in Hj' as ->.
    rewrite Forall_forall in Hall. destruct (Hall _ Hj); lia.
  - apply Forall_app. split.
    + eapply Forall_impl; [exact Hall|]. intros j [?|?]; [left; lia|by right].
    + constructor; [left; lia|constructor].
Qed.

Lemma ids_fresh_push k0 N m w c :
  (m ≤ N)%nat → call_id c = slug_supply (slug_calls w) →
  ids_fresh k0 N m w → ids_fresh k0 N m (add_call (took_slug w) c).
Proof.
  intros Hm Hid (idxs & Hids & Hnd & Hall & Hk).
  exists (idxs ++ [slug_calls w]). cbn. rewrite !map_app, Hids. cbn. rewrite Hid.
  split_and!; try done.
  - apply NoDup_app. split_and!; [done| |apply NoDup_singleton].
    intros j Hj Hj'. apply list_elem_of_singleton in Hj' as ->.
    rewrite Forall_forall in Hall. destruct (Hall _ Hj); lia.
  - apply Forall_app. split.
    + eapply Forall_impl; [exact Hall|]. intros j [?|?]; [by left|right; lia].
    + constructor; [right; lia|constructor].
  - lia.
Qed.

Lemma body_ids_fresh self k0 n handled s rest w res :
  body_outcome self (build_ids ∅ k0 (map name (services self))) n s w res →
  services self = handled ++ s :: rest →
  NoDup (map name (services self)) →
  ids_fresh k0 (length (services self)) (length handled) w →
  ids_fresh k0 (length (services self)) (S (length handled)) res.2.
Proof.
  intros Hb Hsvcs Hnd Hfresh.
  assert (Hlen : (length handled < length (services self))%nat).
  { rewrite Hsvcs, length_app. cbn. lia. }
  assert (Hbid : ∀ bid,
            build_ids ∅ k0 (map name (services self)) !! name s = Some bid →
            bid = slug_supply (k0 + length handled)).
  { intros bid Hlook.
    rewrite (build_ids_lookup_index _ _ _ (length handled) (name s)) in Hlook;
      [congruence|done|].
    rewrite Hsvcs, map_app. cbn.
    rewrite lookup_app_r by (by rewrite length_map).
    by rewrite length_map, Nat.sub_diag. }
  inversion Hb as [Hd|e' Hd Hne Hnr|rel bid Hd Hrel Hlook cb Hok
                  |rel bid Hd Hrel Hlook cb Hok Hsp
                  |rel bid Hd Hrel Hlook cb Hok Hsp cp Hokp
                  |rel bid Hd Hrel Hlook cb Hok Hsp cp Hokp]; subst; cbn [snd].
  - eapply ids_fresh_weaken; [|done]. lia.
  - eapply ids_fresh_weaken; [|done]. lia.
  - apply ids_fresh_build; [done| |done]. by apply Hbid.
  - apply ids_fresh_build; [done| |done]. by apply Hbid.
  - apply ids_fresh_push; [lia|done|].
    apply ids_fresh_build; [done| |done]. by apply Hbid.
  - apply ids_fresh_push; [lia|done|].
    apply ids_fresh_build; [done| |done]. by apply Hbid.
Qed.

Lemma loop_ids_fresh self k0 n l w res :
  loop_outcome self (build_ids ∅ k0 (map name (services self))) n l w res →
  ∀ handled,
    services self = handled ++ l →
    NoDup (map name (services self)) →
    ids_fresh k0 (length (services self)) (length handled) w →
    ∃ m, ids_fresh k0 (length (services self)) m res.2.
Proof.
  induction 1 as [n w|n s l w e w' Hb|n s l w n' w' res Hb Hl IH];
    intros handled Hsvcs Hnd Hfresh.
  - by eexists.
  - eexists. by eapply (body_ids_fresh _ _ _ handled).
  - apply (IH (handled ++ [s])).
    + by rewrite <- app_assoc.
    + done.
    + rewrite length_app. cbn. rewrite Nat.add_1_r.
      by eapply (body_ids_fresh _ _ _ handled s l w (Ok n', w')).
Qed.

End TaskIds.

(** X5: when the catalog's unit names are distinct and [slugId] never
    returns the same id twice, no task id is used twice in a run: the ids
    reserved for the Build tasks and the ids drawn for the Publish tasks
    are pairwise distinct, whatever the queue answers. *)
Theorem task_ids_distinct `{TimeLib} `{Taskcluster} (self : Scheduler) :
  NoDup (map name (services self)) →
  (∀ i j, slug_supply i = slug_supply j → i = j) →
  NoDup (map call_id (calls_of (create_tasks self))).
Proof.
  intros Hnd Hinj.
  destruct (loop_ids_fresh self 0 _ _ _ _ (create_tasks_outcome self initial_world) [])
    as (m & idxs & Hids & Hndi & _); [done|done| |].
  - exists []. split_and!; [done|constructor|constructor|].
    cbn. by rewrite length_map.
  - unfold calls_of, run. rewrite Hids.
    apply NoDup_fmap_2; [|done]. intros i j. apply Hinj.
Qed.

Lemma str_int_inj (m n : N) : str_int m = str_int n → m = n.
Proof.
  unfold str_int. intros Heq.
  apply DecimalN.Unsigned.to_uint_inj.
  assert (Hsome : Some (N.to_uint m) = Some (N.to_uint n)).
  { by rewrite <- !NilEmpty.usu, Heq. }
  by injection Hsome.
Qed.

Lemma numbered_slug_inj (i j : nat) : numbered_slug i = numbered_slug j → i = j.
Proof.
  unfold numbered_slug. rewrite !append_cons, !append_nil.
  intros [= Heq]. by apply Nat2N.inj, str_int_inj.
Qed.

Lemma task_ids_distinct_witness :
  NoDup (map name (services publishing_chain)) ∧
  (∀ i j, @slug_supply accepting_queue i = @slug_supply accepting_queue j → i = j) ∧
  NoDup (map call_id
           (calls_of (@create_tasks seconds_clock accepting_queue publishing_chain))).
Proof.
  assert (Hnd : NoDup (map name (services publishing_chain))).
  { apply (bool_decide_unpack _). vm_compute. exact I. }
  split; [exact Hnd|]. split; [exact numbered_slug_inj|].
  exact (@task_ids_distinct seconds_clock accepting_queue publishing_chain
           Hnd numbered_slug_inj).
Defined.

(** ** What every submitted task carries *)

(** X6: every task of a run, Build or Publish, is created in the
    invocation's task group for the same provisioner and worker type, is
    stamped [created = now] and [deadline = now + DEADLINE], runs the
    taskboot image for at most [MAX_RUN_TIME], and names the same owner and
    source. *)
Theorem tasks_share_group_and_timing `{TimeLib} `{Taskcluster}
    (self : Scheduler) (c : Call) :
  c ∈ calls_of (create_tasks self) →
  taskGroupId (call_task c) = task_group self ∧
  created (call_task c) = stringDate (now self) ∧
  deadline (call_task c) = stringDate (add_timedelta (now self) DEADLINE) ∧
  provisionerId (call_task c) = "proj-fuzzing"%string ∧
  workerType (call_task c) = "ci"%string ∧
  image (payload (call_task c)) = "mozillasecurity/taskboot:latest"%string ∧
  maxRunTime (payload (call_task c)) = 3600%Z ∧
  meta_owner (metadata (call_task c)) = OWNER_EMAIL ∧
  meta_source (metadata (call_task c)) = SOURCE_URL.
Proof.
  intros Hin.
  pose proof (calls_of_create_tasks_shape self) as Hall.
  rewrite Forall_forall in Hall.
  destruct (Hall c Hin) as (s & _ & _ & [(deps & rel & ->)|[_ (bid & ->)]]);
    by split_and!.
Qed.

Lemma tasks_share_group_and_timing_witness :
  ∃ c, c ∈ calls_of (@create_tasks seconds_clock accepting_queue missing_secret) ∧
       is_push_task (call_task c) ∧
       taskGroupId (call_task c) = Some "group"%string ∧
       deadline (call_task c) = "1600007200"%string.
Proof.
  assert (∃ cb cp, calls_of (@create_tasks seconds_clock accepting_queue missing_secret)
                   = [cb; cp] ∧ is_push_task (call_task cp)) as (cb & cp & Hcalls & Hpush).
  { eexists _, _. split; [vm_compute; reflexivity|reflexivity]. }
  assert (Hin : cp ∈ calls_of (@create_tasks seconds_clock accepting_queue missing_secret)).
  { rewrite Hcalls. right. left. }
  exists cp. split; [exact Hin|]. split; [exact Hpush|].
  destruct (@tasks_share_group_and_timing seconds_clock accepting_queue
              missing_secret cp Hin) as (Hg & _ & Hdl & _).
  split; [exact Hg|exact Hdl].
Defined.

(** X7: every route a task carries lies in the index namespace
    [index.project.fuzzing.orion.] and the task asks for the scope
    [queue:route:index.project.fuzzing.orion.*] that covers it; a task
    without routes (a Publish task) asks only for the scope of its secret. *)
Theorem routes_covered_by_scope `{TimeLib} `{Taskcluster}
    (self : Scheduler) (c : Call) :
  c ∈ calls_of (create_tasks self) →
  match routes (call_task c) with
  | Some rs =>
      "queue:route:index.project.fuzzing.orion.*"%string ∈ scopes (call_task c) ∧
      ∀ r, r ∈ rs → ∃ rest, r = ("index.project.fuzzing.orion." ++ rest)%string
  | None =>
      scopes (call_task c) = [ ("secrets:get:" ++ fmt_opt (docker_secret self))%string ]
  end.
Proof.
  intros Hin.
  pose proof (calls_of_create_tasks_shape self) as Hall.
  rewrite Forall_forall in Hall.
  destruct (Hall c Hin) as (s & _ & _ & [(deps & rel & ->)|[_ (bid & ->)]]); cbn.
  - split; [right; left|].
    intros r Hr. apply elem_of_cons in Hr as [->|Hr].
    + exists (name s ++ ".rev." ++ commit (github_event self))%string.
      unfold rev_index, index_prefix. by rewrite !append_cons, !append_nil.
    + apply list_elem_of_singleton in Hr as ->. unfold build_index, index_prefix.
      destruct (pull_request (github_event self)) as [pr|].
      * exists (name s ++ ".pull_request." ++ str_int pr)%string.
        by rewrite !append_cons, !append_nil.
      * exists (name s ++ "." ++ fmt_opt (branch (github_event self)))%string.
        by rewrite !append_cons, !append_nil.
  - done.
Qed.

Lemma routes_covered_by_scope_witness :
  ∃ c rs, c ∈ calls_of (@create_tasks seconds_clock accepting_queue pull_request_run) ∧
    routes (call_task c) = Some rs ∧
    ∀ r, r ∈ rs → ∃ rest, r = ("index.project.fuzzing.orion." ++ rest)%string.
Proof.
  assert (∃ c0 rs, calls_of (@create_tasks seconds_clock accepting_queue pull_request_run)
                   = [c0] ∧ routes (call_task c0) = Some rs) as (c0 & rs & Hcalls & Hrs).
  { eexists _, _. split; [vm_compute; reflexivity|reflexivity]. }
  assert (Hin : c0 ∈ calls_of (@create_tasks seconds_clock accepting_queue pull_request_run)).
  { rewrite Hcalls. left. }
  exists c0, rs. split; [exact Hin|]. split; [exact Hrs|].
  pose proof (@routes_covered_by_scope seconds_clock accepting_queue
                pull_request_run c0 Hin) as Hcov.
  rewrite Hrs in Hcov. exact (proj2 Hcov).
Defined.

(** ** The exit status of the entry point *)

Section MainExit.
Context `{TimeLib} `{Taskcluster} `{Collaborators}.

Lemma main_calls args svcs :
  load_services (from_taskcluster (args_github_action args) (args_github_event args))
    = Some svcs →
  calls_of (main args) = calls_of (create_tasks (scheduler_of args svcs)) ∧
  outcome_of (main args)
    = match outcome_of (create_tasks (scheduler_of args svcs)) with
      | Ok _ => Ok 0%Z
      | Raise e => Raise e
      end.
Proof.
  intros Hload. unfold calls_of, outcome_of, run. rewrite main_run, Hload. done.
Qed.

Lemma services_get_set_dirty svcs key :
  services_get (map set_dirty svcs) key = set_dirty <$> services_get svcs key.
Proof.
  unfold services_get. induction svcs as [|s svcs IH]; [done|].
  cbn. by destruct (bool_decide (name s = key)).
Qed.

Lemma closed_catalog_set_dirty svcs :
  closed_catalog svcs → closed_catalog (map set_dirty svcs).
Proof.
  unfold closed_catalog. intros Hclosed. apply Forall_fmap.
  eapply Forall_impl; [exact Hclosed|]. intros s [Hdeps Hrel]. split; [|done].
  eapply Forall_impl; [exact Hdeps|]. intros dep [s' Hs']. cbn.
  rewrite services_get_set_dirty, Hs'. by eexists.
Qed.

Lemma dirty_count_set_dirty svcs : dirty_count (map set_dirty svcs) = length svcs.
Proof.
  unfold dirty_count. induction svcs as [|s svcs IH]; [done|].
  cbn [map]. rewrite filter_cons, decide_True by done. cbn. by rewrite IH.
Qed.

Lemma dep_ids_all_dirty svcs sbt deps :
  resolvable (map set_dirty svcs) sbt deps →
  length (dep_ids (map set_dirty svcs) sbt deps) = length deps.
Proof.
  intros Hres. pose proof (resolvable_dep_ids _ _ _ Hres) as Hall.
  apply Forall2_length in Hall. rewrite <- Hall. f_equal.
  clear Hall. induction Hres as [|dep deps (s' & Hs' & _) _ IH]; [done|].
  rewrite filter_cons, IH. rewrite decide_True; [done|].
  unfold is_dirty. rewrite Hs'.
  rewrite services_get_set_dirty in Hs'.
  destruct (services_get svcs dep); [|done]. by injection Hs' as <-.
Qed.

End MainExit.

(** X8: the entry point returns 0 or raises, and nothing else: when the
    exit status is 0 the catalog was loaded, every creation call made was
    accepted, and exactly one Build task was submitted per dirty unit (and
    one Publish task as well when publishing). *)
Theorem main_exit_zero `{TimeLib} `{Taskcluster} `{Collaborators} (args : Namespace) :
  exit_status (outcome_of (main args)) = 0%Z →
  ∃ svcs,
    load_services (from_taskcluster (args_github_action args) (args_github_event args))
      = Some svcs ∧
    outcome_of (main args) = Ok 0%Z ∧
    settled (calls_of (main args)) ∧
    build_calls (calls_of (main args)) = dirty_count (services (scheduler_of args svcs)) ∧
    push_calls (calls_of (main args))
      = (if should_push (scheduler_of args svcs)
         then dirty_count (services (scheduler_of args svcs)) else 0).
Proof.
  intros Hexit.
  destruct (load_services (from_taskcluster (args_github_action args)
                             (args_github_event args))) as [svcs|] eqn:Hload.
  2: { unfold outcome_of, run in Hexit. rewrite main_run, Hload in Hexit. done. }
  destruct (main_calls args svcs Hload) as [Hcalls Hout].
  rewrite Hout in Hexit |- *. rewrite Hcalls.
  destruct (outcome_of (create_tasks (scheduler_of args svcs))) as [n|e] eqn:Hct;
    [|done].
  exists svcs. split; [done|]. split; [done|].
  destruct (create_tasks_returned _ n Hct) as (blocks & Hblocks & Hall & _).
  destruct (completed_counts _ _ _ _ Hall) as (Hb & Hp & Hs).
  by rewrite Hblocks.
Qed.

Lemma main_exit_zero_witness :
  exit_status (outcome_of (@main seconds_clock accepting_queue _ change_of_a_args)) = 0%Z ∧
  settled (calls_of (@main seconds_clock accepting_queue _ change_of_a_args)) ∧
  build_calls (calls_of (@main seconds_clock accepting_queue _ change_of_a_args)) = 3.
Proof.
  assert (Hexit : exit_status
                    (outcome_of (@main seconds_clock accepting_queue _ change_of_a_args))
                  = 0%Z) by reflexivity.
  split; [exact Hexit|].
  destruct (@main_exit_zero seconds_clock accepting_queue _ change_of_a_args Hexit)
    as (svcs & Hload & _ & Hs & Hb & _).
  split; [exact Hs|]. rewrite Hb.
  injection Hload as <-. reflexivity.
Defined.

(** X9: a forced rebuild submits the whole catalog. When the commit message
    holds [/force-rebuild], the catalog loads without dangling dependency
    and the queue accepts every call, the entry point exits with 0 after
    submitting, unit by unit in catalog order, one Build task for every unit
    of the catalog, clean or not before, each depending on as many tasks as
    the unit has dependencies. *)
Theorem forced_rebuild_builds_every_unit `{TimeLib} `{Taskcluster} `{Collaborators}
    (args : Namespace) (svcs : Services) :
  load_services (from_taskcluster (args_github_action args) (args_github_event args))
    = Some svcs →
  str_in "/force-rebuild"
    (commit_message (from_taskcluster (args_github_action args) (args_github_event args)))
    = true →
  closed_catalog svcs → always_accepts →
  outcome_of (main args) = Ok 0%Z ∧
  build_calls (calls_of (main args)) = length svcs ∧
  ∃ blocks,
    calls_of (main args) = concat blocks ∧
    Forall2 (λ s b, ∃ cb rest, b = cb :: rest ∧ build_call_of s cb ∧
                      Forall (λ c, ¬ is_build_task (call_task c)) rest ∧
                      length (dependencies (call_task cb)) = length (service_deps s))
      svcs blocks.
Proof.
  intros Hload Hforce Hclosed Hacc.
  destruct (main_calls args svcs Hload) as [Hcalls Hout].
  set (sched := scheduler_of args svcs) in *.
  assert (Hsvcs : services sched = map set_dirty svcs).
  { unfold sched, scheduler_of, mark_services_for_rebuild. cbn. by rewrite Hforce. }
  assert (Hclosed' : closed_catalog (services sched)).
  { rewrite Hsvcs. by apply closed_catalog_set_dirty. }
  destruct (create_tasks_accepted sched Hclosed' Hacc) as (blocks & Hct & Hblocks & Hall).
  rewrite Hout, Hcalls, Hct, Hblocks.
  destruct (completed_counts _ _ _ _ Hall) as (Hb & _ & _).
  split; [done|]. split; [by rewrite Hb, Hsvcs, dirty_count_set_dirty|].
  exists blocks. split; [done|].
  assert (Hready : ∀ s, s ∈ services sched →
            ready sched (build_ids ∅ 0 (map name (services sched))) s).
  { intros s Hs. by apply closed_catalog_ready. }
  rewrite Hsvcs in Hall at 2.
  apply (Forall2_fmap_l set_dirty _ svcs blocks) in Hall.
  eapply Forall2_impl_elem; [exact Hall|]. intros s' b Hs' Hcomp. cbn in Hcomp.
  assert (Hin : set_dirty s' ∈ services sched).
  { rewrite Hsvcs. by apply list_elem_of_fmap_2. }
  destruct (Hready _ Hin) as (Hres & _ & _). rewrite Hsvcs in Hres at 1.
  cbn in Hres.
  assert (Hcb : ∀ cb, build_of sched (build_ids ∅ 0 (map name (services sched)))
                        (set_dirty s') cb →
            build_call_of s' cb ∧
            length (dependencies (call_task cb)) = length (service_deps s')).
  { intros cb Hbo. split; [by apply build_of_build_call_of in Hbo|].
    destruct Hbo as (_ & rel & _ & ->).
    change (length (dep_ids (services sched)
                      (build_ids ∅ 0 (map name (services sched))) (service_deps s'))
            = length (service_deps s')).
    revert Hres. generalize (build_ids ∅ 0 (map name (services sched))).
    intros sbt Hres. rewrite Hsvcs. by apply dep_ids_all_dirty. }
  inversion Hcomp as [Hd|cb Hd Hbo _ _|cb cp Hd Hbo _ _ Hcp _]; subst; [done| |].
  - exists cb, []. destruct (Hcb cb Hbo). split_and!; try done.
  - exists cb, [cp]. destruct (Hcb cb Hbo). split_and!; try done.
    constructor; [|constructor]. rewrite Hcp. apply push_task_is_push.
Qed.

Lemma forced_rebuild_builds_every_unit_witness :
  str_in "/force-rebuild" (commit_message (push_to "dev" "bump /force-rebuild")) = true ∧
  closed_catalog [unit_ "a" [] false; unit_ "b" [] false] ∧
  @always_accepts accepting_queue ∧
  outcome_of (@main seconds_clock accepting_queue _ (forced_rebuild_args false)) = Ok 0%Z ∧
  build_calls (calls_of (@main seconds_clock accepting_queue _ (forced_rebuild_args false)))
    = 2.
Proof.
  assert (Hclosed : closed_catalog [unit_ "a" [] false; unit_ "b" [] false]).
  { repeat (constructor || split || (eexists; reflexivity)). }
  split; [reflexivity|]. split; [exact Hclosed|]. split; [exact accepting_queue_accepts|].
  destruct (@forced_rebuild_builds_every_unit seconds_clock accepting_queue _
              (forced_rebuild_args false) _ eq_refl eq_refl Hclosed
              accepting_queue_accepts) as (Hout & Hb & _).
  split; [exact Hout|exact Hb].
Defined.

(** * Properties of the monitor *)

Module MonitorProps.
Import Monitor MonitorSpec.

Lemma elem_of_map {A B} (f : A → B) (l : list A) (y : B) :
  y ∈ map f l ↔ ∃ x, y = f x ∧ x ∈ l.
Proof. apply (list_elem_of_fmap f l y). Qed.

Lemma elem_of_concat {A} (x : A) (ls : list (list A)) :
  x ∈ concat ls ↔ ∃ l, x ∈ l ∧ l ∈ ls.
Proof.
  rewrite list_elem_of_In, in_concat. split.
  - intros (l & Hl & Hx). exists l. by rewrite !list_elem_of_In.
  - intros (l & Hx & Hl). exists l. by rewrite <- !list_elem_of_In.
Qed.

Lemma map_snoc {A B} (f : A → B) (l : list A) (x : A) :
  map f (l ++ [x]) = map f l ++ [f x].
Proof. by rewrite map_app. Qed.

(** ** Dictionaries *)

Lemma dict_set_fresh {V} (d : list (string * V)) key v :
  key ∉ map fst d → dict_set d key v = d ++ [ (key, v) ].
Proof.
  induction d as [|[k v0] d IH]; cbn; intros Hk; [done|].
  apply not_elem_of_cons in Hk as [Hne Hk].
  case_bool_decide; [congruence|]. by rewrite IH.
Qed.

Lemma dict_append_keys {V} (d : list (string * list V)) key x :
  map fst (dict_append d key x) = map fst d.
Proof.
  unfold dict_append. induction d as [|[k v] d IH]; cbn; [done|].
  rewrite IH. by case_bool_decide.
Qed.

Lemma dict_append_elem {V} (d : list (string * list V)) key x k rs' :
  (k, rs') ∈ dict_append d key x →
  ∃ rs, (k, rs) ∈ d ∧ (rs' = rs ∨ (k = key ∧ rs' = rs ++ [x])).
Proof.
  unfold dict_append. intros Hin. apply elem_of_map in Hin as ([k0 rs] & Heq & Hin).
  cbn in Heq. case_bool_decide; simplify_eq; eauto 6.
Qed.

Lemma dict_get_mem {V} (d : list (string * V)) key :
  dict_mem d key = true → is_Some (dict_get d key).
Proof.
  unfold dict_mem, dict_get. intros Hm. apply bool_decide_eq_true in Hm.
  induction d as [|[k v] d IH]; cbn in *; [by apply elem_of_nil in Hm|].
  case_bool_decide; cbn; [eauto|].
  apply elem_of_cons in Hm as [->|Hm]; [done|]. by apply IH.
Qed.

(** No queue besides that of the generic platform. *)
Lemma no_specific_queue (o : string) :
  dict_mem TC_QUEUES o && negb (bool_decide (o = GENERIC_PLATFORM)) = false.
Proof.
  unfold dict_mem. cbn. case_bool_decide as Hin; [|done].
  apply list_elem_of_singleton in Hin. subst o. done.
Qed.

(** ** Loops *)

Section Loops.
Context `{Surroundings}.

Lemma for_each_app {A B} (body : B → A → M B) l1 l2 s w :
  for_each body s (l1 ++ l2) w
  = (s' ← for_each body s l1; for_each body s' l2) w.
Proof.
  revert s w. induction l1 as [|x l1 IH]; intros s w; [done|].
  cbn. unfold mbind, M_bind. destruct (body s x w) as [[s1|e] w1]; [|done].
  apply IH.
Qed.

Lemma for_each_map {A A' B} (f : A → A') (body : B → A' → M B) l s w :
  for_each (λ s c, body s (f c)) s l w = for_each body s (map f l) w.
Proof.
  revert s w. induction l as [|x l IH]; intros s w; [done|].
  cbn. unfold mbind, M_bind. destruct (body s (f x) w) as [[s1|e] w1]; [|done].
  apply IH.
Qed.

Lemma for_each_collect {A} (l acc : list A) w :
  for_each collect acc l w = (Ok (acc ++ l), w).
Proof.
  revert acc. induction l as [|x l IH]; intros acc; cbn.
  - by rewrite app_nil_r.
  - unfold mbind, M_bind, collect at 1. cbn. rewrite IH. by rewrite <- app_assoc.
Qed.

End Loops.

(** ** Relations between the states before and after *)

Section Keeps.
Context `{Surroundings}.
Variable R : World → World → Prop.
Hypothesis R_refl : ∀ w, R w w.
Hypothesis R_trans : ∀ w1 w2 w3, R w1 w2 → R w2 w3 → R w1 w3.
Hypothesis R_draw : ∀ w,
  R w {| slugs := slugs w; clock := clock w; draws := S (draws w);
         events := events w |}.

Lemma keeps_ret {A} (a : A) : keeps R (mret a).
Proof. intros w. apply R_refl. Qed.

Lemma keeps_bind {A B} (m : M A) (f : A → M B) :
  keeps R m → (∀ a, keeps R (f a)) → keeps R (m ≫= f).
Proof.
  intros Hm Hf w. unfold mbind, M_bind. specialize (Hm w).
  destruct (m w) as [[a|e] w1]; [|done].
  eapply R_trans; [exact Hm|apply Hf].
Qed.

Lemma keeps_for_each {A B} (body : B → A → M B) l :
  (∀ s x, keeps R (body s x)) → ∀ s, keeps R (for_each body s l).
Proof.
  intros Hbody. induction l as [|x l IH]; intros s; cbn.
  - apply keeps_ret.
  - apply keeps_bind; [apply Hbody|apply IH].
Qed.

Lemma keeps_list_crashes q : keeps R (srv_list_crashes q).
Proof. intros w. apply R_refl. Qed.

Lemma keeps_list_buckets tools : keeps R (srv_list_buckets tools).
Proof. intros w. apply R_refl. Qed.

Lemma keeps_random : keeps R random_lt_select.
Proof. intros w. apply R_draw. Qed.

Lemma keeps_choice {A} (l : list A) : keeps R (choice l).
Proof.
  intros w. unfold choice.
  destruct (l !! randbelow (draws w) (length l)); apply R_draw.
Qed.

Lemma keeps_fuzzmanager {S} tools (yield_ : S → ReducibleCrash → M S) s :
  (∀ s x, keeps R (yield_ s x)) →
  keeps R (_fuzzmanager_get_crashes tools yield_ s).
Proof.
  intros Hy. unfold _fuzzmanager_get_crashes.
  apply keeps_bind; [apply keeps_list_crashes|]. intros crashes.
  apply keeps_bind; [by apply keeps_for_each|]. intros s1.
  apply keeps_bind; [apply keeps_list_buckets|]. intros buckets.
  apply keeps_for_each. intros s2 b.
  destruct (negb _); [apply keeps_ret|].
  apply keeps_bind; [apply keeps_list_crashes|]. intros crashes'.
  by apply keeps_for_each.
Qed.

Lemma keeps_get_unique {S} tools (yield_ : S → string * ReducibleCrash → M S) s :
  (∀ s x, keeps R (yield_ s x)) →
  keeps R (_get_unique_crashes tools yield_ s).
Proof.
  intros Hy. unfold _get_unique_crashes.
  apply keeps_bind.
  - apply keeps_fuzzmanager. intros [[seen rc] s1] x. unfold unique_step.
    case_bool_decide.
    + apply keeps_bind; [apply keeps_random|]. intros [|]; [apply keeps_ret|].
      apply keeps_bind; [apply Hy|]. intros s2. apply keeps_ret.
    + destruct (dict_mem rc (signature x)); apply keeps_ret.
  - intros st. apply keeps_for_each. intros s1 entry. unfold pick_step.
    apply keeps_bind; [apply keeps_choice|]. intros picked. apply Hy.
Qed.

Lemma keeps_run (self : ReductionMonitor) :
  (dry_run self = false →
   ∀ c, keeps R (update_testcase_quality c QUAL_NOT_REPRODUCIBLE)) →
  (∀ c, keeps R (queue_reduction_task self GENERIC_PLATFORM c)) →
  keeps R (run self).
Proof.
  intros Hupd Hqueue. unfold run.
  apply keeps_bind; [apply keeps_list_crashes|]. intros crashes.
  apply keeps_bind.
  { apply keeps_for_each. intros u0 c.
    destruct (dry_run self) eqn:Hdry; cbn; [apply keeps_ret|by apply Hupd]. }
  intros u. apply keeps_bind; [|intros u'; apply keeps_ret].
  apply keeps_get_unique. intros u1 [sig r]. unfold run_body. cbn.
  case_bool_decide; [apply Hqueue|].
  rewrite no_specific_queue.
  destruct (dry_run self) eqn:Hdry; cbn; [apply keeps_ret|by apply Hupd].
Qed.

End Keeps.

(** ** One reduction task *)

Section Queue.
Context `{Surroundings}.

Lemma queue_reduction_task_generic (self : ReductionMonitor) c w :
  dry_run self = false →
  ∃ task, generic_task task ∧ crash_id task = c ∧
    queue_reduction_task self GENERIC_PLATFORM c w =
      (Ok tt,
       {| slugs := S (slugs w); clock := S (clock w); draws := draws w;
          events := events w ++
            (if queue_accepts (events w) (slug_supply (slugs w)) task
             then [ Created (slug_supply (slugs w)) task true;
                    Updated c QUAL_REPRODUCIBLE ]
             else [ Created (slug_supply (slugs w)) task false ]) |}).
Proof.
  intros Hdry. unfold queue_reduction_task. rewrite Hdry.
  change (dict_get TC_QUEUES GENERIC_PLATFORM) with (Some "grizzly-reduce-worker"%string).
  exists
    {| task_group := TASK_ID;
       now := stringDate (utcnow (clock w));
       deadline := stringDate (add_timedelta (utcnow (clock w)) REDUCTION_DEADLINE);
       expires := stringDate (add_timedelta (utcnow (clock w)) REDUCTION_EXPIRES);
       provisioner := PROVISIONER_ID;
       scheduler := SCHEDULER_ID;
       worker := "grizzly-reduce-worker";
       max_run_time := total_seconds REDUCTION_MAX_RUN_TIME;
       task_description := DESCRIPTION;
       owner_email := OWNER_EMAIL;
       crash_id := c;
       os_name := GENERIC_PLATFORM |}.
  split_and!; [| |].
  3: { unfold mbind, M_bind, slugId, datetime_utcnow, except_TaskclusterFailure,
         createTask, update_testcase_quality, log_event. cbn.
       destruct (queue_accepts _ _ _); cbn; [|reflexivity].
       by rewrite <- app_assoc. }
  - unfold generic_task. cbn. split_and!; try reflexivity. exists (clock w). done.
  - reflexivity.
Qed.




End Queue.

(** ** What a run does *)

Section Run.
Context `{Surroundings}.

(** X10. A dry run of the monitor does nothing to the outside: no task is
    created and no crash is updated, no slug is taken and the clock is not
    read; it only reads CrashManager and draws random numbers. *)
Theorem dry_run_touches_nothing (self : ReductionMonitor) (w : World) :
  dry_run self = true → untouched w (run self w).2.
Proof.
  intros Hdry. revert w.
  apply (keeps_run untouched); try done.
  - intros w1 w2 w3 (? & ? & ?) (? & ? & ?). split_and!; congruence.
  - congruence.
  - intros c w. unfold queue_reduction_task. rewrite Hdry. done.
Qed.


End Run.

(** ** Computations that return *)

Section Returns.
Context `{Surroundings}.

Lemma wp_bind {A B} (m : M A) (f : A → M B) w (P : A → World → Prop) Q :
  wp m w P → (∀ a w', P a w' → wp (f a) w' Q) → wp (m ≫= f) w Q.
Proof.
  unfold wp, mbind, M_bind. intros Hm Hf.
  destruct (m w) as [[a|e] w']; [|done]. by apply Hf.
Qed.

Lemma wp_for_each {A B} (body : B → A → M B) (I : B → Prop) l :
  (∀ s x w, I s → wp (body s x) w (λ s' _, I s')) →
  ∀ s w, I s → wp (for_each body s l) w (λ s' _, I s').
Proof.
  intros Hbody. induction l as [|x l IH]; intros s w Hs; cbn; [done|].
  eapply wp_bind; [by apply Hbody|]. intros s' w' Hs'. by apply IH.
Qed.

Lemma wp_fuzzmanager {S} tools (yield_ : S → ReducibleCrash → M S)
    (I : S → Prop) :
  (∀ s x w, I s → wp (yield_ s x) w (λ s' _, I s')) →
  ∀ s w, I s → wp (_fuzzmanager_get_crashes tools yield_ s) w (λ s' _, I s').
Proof.
  intros Hy s w Hs. unfold _fuzzmanager_get_crashes.
  eapply (wp_bind _ _ _ (λ _ _, True)); [done|]. intros crashes w1 _.
  eapply wp_bind; [by apply (wp_for_each _ I); [intros; apply Hy|]|].
  intros s1 w2 Hs1.
  eapply (wp_bind _ _ _ (λ _ _, True)); [done|]. intros buckets w3 _.
  apply (wp_for_each _ I); [|done]. intros s2 b w4 Hs2.
  destruct (negb _); [done|].
  eapply (wp_bind _ _ _ (λ _ _, True)); [done|]. intros crashes' w5 _.
  by apply (wp_for_each _ I); [intros; apply Hy|].
Qed.

Lemma wp_choice {A} (l : list A) w :
  fair_choice → l ≠ [] → wp (choice l) w (λ x _, x ∈ l).
Proof.
  intros Hfair Hl. unfold wp, choice.
  destruct (l !! randbelow (draws w) (length l)) as [x|] eqn:Hx.
  - by eapply list_elem_of_lookup_2.
  - apply lookup_ge_None in Hx.
    assert (0 < length l)%nat by (destruct l; [done|cbn; lia]).
    specialize (Hfair (draws w) (length l)). lia.
Qed.

Lemma wp_get_unique {S} tools (yield_ : S → string * ReducibleCrash → M S) s w :
  fair_choice →
  (∀ s x w, wp (yield_ s x) w (λ _ _, True)) →
  wp (_get_unique_crashes tools yield_ s) w (λ _ _, True).
Proof.
  intros Hfair Hy. unfold _get_unique_crashes.
  eapply wp_bind.
  - apply (wp_fuzzmanager tools _ (λ st, ∀ k rs, (k, rs) ∈ st.1.2 → rs ≠ [])).
    + intros [[seen rc] s1] x w1 Hrc. cbn in Hrc. unfold unique_step.
      case_bool_decide.
      * eapply (wp_bind _ _ _ (λ _ _, True)); [done|]. intros [|] w2 _.
        -- cbn. intros k rs Hin.
           assert (Hcases : (k, rs) ∈ rc ∨ rs = [x]).
           { clear -Hin. induction rc as [|[k0 v0] rc IH]; cbn in Hin.
             - apply list_elem_of_singleton in Hin. right. congruence.
             - case_bool_decide; apply elem_of_cons in Hin as [Hin|Hin].
               + right. congruence.
               + left. by apply list_elem_of_further.
               + left. rewrite Hin. apply list_elem_of_here.
               + destruct (IH Hin) as [?|?]; [left; by apply list_elem_of_further|by right]. }
           destruct Hcases as [? | ->]; [by eapply Hrc|done].
        -- eapply (wp_bind _ _ _ (λ _ _, True)); [apply Hy|]. intros s2 w3 _. done.
      * destruct (dict_mem rc (signature x)); [|done]. cbn. intros k rs' Hin.
        apply dict_append_elem in Hin as (rs & Hin & [-> | [_ ->] ]).
        -- by eapply Hrc.
        -- by destruct rs.
    + cbn. intros k rs Hin. by apply elem_of_nil in Hin.
  - intros [[seen rc] s1] w1 Hrc. cbn in *.
    clear -Hfair Hy Hrc. revert s1 w1.
    induction rc as [|[k rs] rc IH]; intros s1 w1; cbn; [done|].
    unfold pick_step at 1. cbn.
    eapply wp_bind.
    + eapply wp_bind; [apply wp_choice; [done|]|].
      * eapply Hrc. apply list_elem_of_here.
      * intros picked w2 _. apply Hy.
    + intros s2 w2 _. apply IH. intros k' rs' Hin. eapply Hrc.
      by apply list_elem_of_further.
Qed.

(** X12. With a [choice] that finds an element in every non-empty sequence,
    a run of the monitor returns 0 and raises nothing: a refusal by the
    queue is caught, no crash reaches the lookup of a queue it would not
    find, and [choice] is never asked to pick from an empty list. *)
Theorem run_returns_zero (self : ReductionMonitor) (w : World) :
  fair_choice → (run self w).1 = Ok 0%Z.
Proof.
  intros Hfair.
  enough (Hwp : wp (run self) w (λ z _, z = 0%Z)).
  { unfold wp in Hwp. destruct (run self w) as [[z|e] w']; [by subst|done]. }
  unfold run.
  eapply (wp_bind _ _ _ (λ _ _, True)); [done|]. intros crashes w1 _.
  eapply wp_bind.
  { apply (wp_for_each _ (λ _, True)); [|done]. intros u c w2 _.
    by destruct (dry_run self). }
  intros u w2 _.
  eapply wp_bind; [|by intros].
  apply wp_get_unique; [done|]. intros u' [sig r] w3. unfold run_body. cbn.
  assert (Hq : ∀ c w, wp (queue_reduction_task self GENERIC_PLATFORM c) w (λ _ _, True)).
  { intros c w'. destruct (dry_run self) eqn:Hdry.
    - unfold queue_reduction_task. by rewrite Hdry.
    - destruct (queue_reduction_task_generic self c w' Hdry) as (task & _ & _ & Heq).
      unfold wp. by rewrite Heq. }
  case_bool_decide; [apply Hq|].
  rewrite no_specific_queue. by destruct (dry_run self).
Qed.

(** X14. Only crashes of quality 5 are queued: for any other crash the
    body of the loop of [run] marks it quality 10, or does nothing at all
    in a dry run, whatever its OS, as no queue besides that of the generic
    platform is configured. *)
Theorem only_unreduced_crashes_are_queued (self : ReductionMonitor)
    (item : string * ReducibleCrash) (w : World) :
  quality item.2 ≠ QUAL_UNREDUCED →
  run_body self tt item w =
    (Ok tt,
     if dry_run self then w
     else log_event (Updated (crash item.2) QUAL_NOT_REPRODUCIBLE) w).
Proof.
  intros Hq. unfold run_body. case_bool_decide; [done|].
  rewrite no_specific_queue. by destruct (dry_run self).
Qed.

End Returns.

(** ** The crashes yielded *)

Section Yielded.
Context `{Surroundings}.

Lemma for_each_events {A B} (body : B → A → M B) l :
  (∀ s x w, events (body s x w).2 = events w) →
  ∀ s w, events (for_each body s l w).2 = events w.
Proof.
  intros Hbody. induction l as [|x l IH]; intros s w; cbn; [done|].
  unfold mbind, M_bind. specialize (Hbody s x w).
  destruct (body s x w) as [[s1|e] w1]; cbn in *; [|done].
  by rewrite IH.
Qed.

Lemma bucket_loop_stream {S} tools (yield_ : S → ReducibleCrash → M S) bs :
  (∀ s x w, events (yield_ s x w).2 = events w) →
  ∀ s w,
  for_each
    (λ s b,
       if negb (bool_decide (b_best_quality b ∈ reducible_qualities)) then mret s
       else
         crashes ← srv_list_crashes (in_bucket (b_id b) reducible_qualities tools);
         for_each (λ s c, yield_ s (of_bucketed b c)) s crashes)
    s bs w
  = for_each yield_ s
      (concat
         (map (λ b, if negb (bool_decide (b_best_quality b ∈ reducible_qualities))
                    then []
                    else map (of_bucketed b)
                           (list_crashes (events w)
                              (in_bucket (b_id b) reducible_qualities tools)))
            bs)) w.
Proof.
  intros Hy. induction bs as [|b bs IH]; intros s w; [done|].
  cbn [for_each map concat].
  destruct (negb _).
  - unfold mbind at 1, M_bind at 1. cbn. apply IH.
  - rewrite for_each_app. unfold mbind, M_bind, srv_list_crashes.
    rewrite for_each_map.
    pose proof (for_each_events yield_
      (map (of_bucketed b)
         (list_crashes (events w) (in_bucket (b_id b) reducible_qualities tools)))
      Hy s w) as Hev.
    destruct (for_each yield_ s _ w) as [[s1|e] w1]; cbn in Hev; [|done].
    rewrite IH. by rewrite Hev.
Qed.

(** For a consumer that does nothing to the outside, the generator yields
    the crashes of [crash_stream], in this order. *)
Lemma fuzzmanager_stream {S} tools (yield_ : S → ReducibleCrash → M S) s w :
  (∀ s x w, events (yield_ s x w).2 = events w) →
  _fuzzmanager_get_crashes tools yield_ s w
  = for_each yield_ s (crash_stream tools (events w)) w.
Proof.
  intros Hy. unfold _fuzzmanager_get_crashes, crash_stream.
  rewrite for_each_app. unfold mbind, M_bind, srv_list_crashes, srv_list_buckets.
  rewrite for_each_map.
  pose proof (for_each_events yield_
    (map of_unbucketed (list_crashes (events w) (unbucketed reducible_qualities tools)))
    Hy s w) as Hev.
  destruct (for_each yield_ s _ w) as [[s1|e] w1]; cbn in Hev; [|done].
  rewrite (bucket_loop_stream tools yield_ _ Hy). by rewrite Hev.
Qed.

(** X15. The generator returns after yielding exactly these crashes: the
    unbucketed crashes CrashManager lists, each described by its own short
    signature, and the crashes of the buckets whose best quality is 5 or 6,
    each described by its bucket; a bucket of another best quality
    contributes nothing.  It does nothing to the outside. *)
Theorem fuzzmanager_yields (tools : list string) (w : World) :
  ∃ yielded,
    _fuzzmanager_get_crashes tools collect [] w = (Ok yielded, w) ∧
    ∀ r, r ∈ yielded ↔
      match bucket r with
      | None =>
          ∃ c, c ∈ list_crashes (events w) (unbucketed reducible_qualities tools) ∧
               r = of_unbucketed c
      | Some bucket_id =>
          ∃ b c,
            b ∈ list_buckets (events w) tools ∧ b_id b = bucket_id ∧
            (b_best_quality b = QUAL_UNREDUCED ∨
             b_best_quality b = QUAL_REQUEST_SPECIFIC) ∧
            c ∈ list_crashes (events w) (in_bucket bucket_id reducible_qualities tools) ∧
            r = of_bucketed b c
      end.
Proof.
  exists (crash_stream tools (events w)). split.
  { rewrite fuzzmanager_stream by done. by rewrite for_each_collect. }
  intros r. unfold crash_stream. rewrite elem_of_app, elem_of_map. split.
  - intros [(c & -> & Hc)|Hin]; cbn; [by exists c|].
    apply elem_of_concat in Hin as (l & Hr & Hl).
    apply elem_of_map in Hl as (b & -> & Hb).
    case_bool_decide as Hq; cbn in Hr; [|by apply elem_of_nil in Hr].
    apply elem_of_map in Hr as (c & -> & Hc). cbn. exists b, c.
    split_and!; try done.
    unfold reducible_qualities in Hq.
    apply elem_of_cons in Hq as [?|Hq]; [by left|].
    apply list_elem_of_singleton in Hq. by right.
  - destruct (bucket r) as [bucket_id|] eqn:Hbr.
    + intros (b & c & Hb & <- & Hq & Hc & ->). right.
      apply elem_of_concat. eexists. split; [|apply elem_of_map; by exists b].
      rewrite bool_decide_eq_true_2.
      * cbn. apply elem_of_map. by exists c.
      * unfold reducible_qualities. destruct Hq as [->| ->].
        -- apply list_elem_of_here.
        -- apply list_elem_of_further, list_elem_of_here.
    + intros (c & Hc & ->). left. by exists c.
Qed.

End Yielded.

(** ** One crash per signature *)

Section Unique.
Context `{Surroundings}.

Lemma unique_step_inv processed st x w :
  unique_inv processed st →
  ∃ st1 w1, unique_step collect st x w = (Ok st1, w1) ∧
            events w1 = events w ∧
            unique_inv (processed ++ [x]) st1.
Proof.
  destruct st as [[seen rc] acc]. intros (Hseen & Hkeys & Hnd & Hacc & Hrc).
  unfold unique_step. case_bool_decide as Hnew.
  - assert (Hfresh : signature x ∉ map fst acc ++ map fst rc) by (by rewrite <- Hkeys).
    apply not_elem_of_app in Hfresh as [Hfa Hfr].
    unfold mbind, M_bind, random_lt_select.
    destruct (random_below_select (draws w)).
    + eexists _, _. split; [reflexivity|]. split; [done|].
      rewrite (dict_set_fresh _ _ _ Hfr). unfold unique_inv. split_and!.
      * intros sig. rewrite map_snoc, elem_of_app, list_elem_of_singleton,
          elem_of_union, elem_of_singleton, <- Hseen. tauto.
      * intros sig. rewrite map_snoc. cbn.
        rewrite elem_of_union, elem_of_singleton, Hkeys, !elem_of_app,
          list_elem_of_singleton. tauto.
      * rewrite map_snoc, app_assoc. apply NoDup_app. split_and!; [done| |apply NoDup_singleton].
        intros k Hk. rewrite list_elem_of_singleton. intros ->. cbn in Hk.
        apply elem_of_app in Hk as [?|?]; done.
      * intros sig r Hin. destruct (Hacc sig r Hin) as [-> ?]. split; [done|].
        apply elem_of_app. by left.
      * intros sig rs Hin. apply elem_of_app in Hin as [Hin|Hin].
        -- destruct (Hrc sig rs Hin) as [Hne Hrs]. split; [done|].
           intros r Hr. destruct (Hrs r Hr) as [-> ?]. split; [done|].
           apply elem_of_app. by left.
        -- apply list_elem_of_singleton in Hin. simplify_eq. split; [done|].
           intros r Hr. apply list_elem_of_singleton in Hr as ->. split; [done|].
           apply elem_of_app. right. apply list_elem_of_here.
    + unfold collect. cbn. eexists _, _. split; [reflexivity|]. split; [done|].
      unfold unique_inv. split_and!.
      * intros sig. rewrite map_snoc, elem_of_app, list_elem_of_singleton,
          elem_of_union, elem_of_singleton, <- Hseen. tauto.
      * intros sig. rewrite map_snoc. cbn.
        rewrite elem_of_union, elem_of_singleton, Hkeys, !elem_of_app,
          list_elem_of_singleton. tauto.
      * rewrite map_snoc. cbn. rewrite <- app_assoc. cbn.
        apply NoDup_app in Hnd as (Hna & Hdis & Hnr).
        apply NoDup_app. split_and!; [done| |].
        -- intros k Hk. rewrite elem_of_cons. intros [->|Hk']; [done|].
           by apply (Hdis k).
        -- apply NoDup_cons. by split.
      * intros sig r Hin. apply elem_of_app in Hin as [Hin|Hin].
        -- destruct (Hacc sig r Hin) as [-> ?]. split; [done|].
           apply elem_of_app. by left.
        -- apply list_elem_of_singleton in Hin. simplify_eq. split; [done|].
           apply elem_of_app. right. apply list_elem_of_here.
      * intros sig rs Hin. destruct (Hrc sig rs Hin) as [Hne Hrs]. split; [done|].
        intros r Hr. destruct (Hrs r Hr) as [-> ?]. split; [done|].
        apply elem_of_app. by left.
  - assert (Hold : signature x ∈ seen).
    { exact Hnew. }
    assert (Hseen' : ∀ sig, sig ∈ seen ↔ sig ∈ map signature (processed ++ [x])).
    { intros sig. rewrite map_snoc, elem_of_app, list_elem_of_singleton, <- Hseen.
      split; [tauto|]. intros [?| ->]; done. }
    destruct (dict_mem rc (signature x)) eqn:Hmem.
    + eexists _, _. split; [reflexivity|]. split; [done|].
      unfold unique_inv. rewrite dict_append_keys. split_and!; try done.
      * intros sig r Hin. destruct (Hacc sig r Hin) as [-> ?]. split; [done|].
        apply elem_of_app. by left.
      * intros sig rs' Hin.
        apply dict_append_elem in Hin as (rs & Hin & [-> | [-> ->] ]);
          destruct (Hrc _ rs Hin) as [Hne Hrs].
        -- split; [done|]. intros r Hr. destruct (Hrs r Hr) as [-> ?].
           split; [done|]. apply elem_of_app. by left.
        -- split; [by destruct rs|]. intros r Hr.
           apply elem_of_app in Hr as [Hr|Hr].
           ++ destruct (Hrs r Hr) as [? ?]. split; [done|]. apply elem_of_app. by left.
           ++ apply list_elem_of_singleton in Hr as ->. split; [done|].
              apply elem_of_app. right. apply list_elem_of_here.
    + eexists _, _. split; [reflexivity|]. split; [done|].
      unfold unique_inv. split_and!; try done.
      * intros sig r Hin. destruct (Hacc sig r Hin) as [-> ?]. split; [done|].
        apply elem_of_app. by left.
      * intros sig rs Hin. destruct (Hrc sig rs Hin) as [Hne Hrs]. split; [done|].
        intros r Hr. destruct (Hrs r Hr) as [-> ?]. split; [done|].
        apply elem_of_app. by left.
Qed.

Lemma unique_fold l : ∀ processed st w,
  unique_inv processed st →
  ∃ st' w', for_each (unique_step collect) st l w = (Ok st', w') ∧
            events w' = events w ∧
            unique_inv (processed ++ l) st'.
Proof.
  induction l as [|x l IH]; intros processed st w Hinv.
  - exists st, w. by rewrite app_nil_r.
  - destruct (unique_step_inv processed st x w Hinv) as (st1 & w1 & Hstep & Hev1 & Hinv1).
    destruct (IH _ st1 w1 Hinv1) as (st' & w' & Hrest & Hev & Hinv').
    exists st', w'. cbn. unfold mbind, M_bind. rewrite Hstep, Hrest.
    split_and!; [done|congruence|]. by rewrite <- app_assoc in Hinv'.
Qed.

Lemma pick_fold (rc : list (string * list ReducibleCrash)) :
  fair_choice →
  (∀ k rs, (k, rs) ∈ rc → rs ≠ []) →
  ∀ acc w, ∃ picks w',
    for_each (pick_step collect) acc rc w = (Ok (acc ++ picks), w') ∧
    map fst picks = map fst rc ∧
    ∀ k r, (k, r) ∈ picks → ∃ rs, (k, rs) ∈ rc ∧ r ∈ rs.
Proof.
  intros Hfair. induction rc as [|[k rs] rc IH]; intros Hne acc w.
  - exists [], w. rewrite app_nil_r. split_and!; [done|done|].
    intros k r Hin. by apply elem_of_nil in Hin.
  - pose proof (wp_choice rs w Hfair (Hne k rs (list_elem_of_here _ _))) as Hpick.
    unfold wp in Hpick. destruct (choice rs w) as [[picked|e] w1] eqn:Hchoice; [|done].
    destruct (IH (λ k' rs' Hin, Hne k' rs' (list_elem_of_further _ _ _ Hin))
                 (acc ++ [ (k, picked) ]) w1) as (picks & w' & Hrest & Hkeys & Hfrom).
    exists ((k, picked) :: picks), w'. split_and!.
    + cbn. unfold mbind at 1, M_bind at 1, pick_step at 1. cbn.
      unfold mbind at 1, M_bind at 1. rewrite Hchoice. unfold collect at 1. cbn.
      rewrite Hrest. by rewrite <- app_assoc.
    + cbn. by rewrite Hkeys.
    + intros k' r Hin. apply elem_of_cons in Hin as [Hin|Hin].
      * simplify_eq. exists rs. split; [apply list_elem_of_here|done].
      * destruct (Hfrom k' r Hin) as (rs' & ? & ?). exists rs'.
        split; [by apply list_elem_of_further|done].
Qed.

(** X13. With a [choice] that finds an element in every non-empty sequence,
    [_get_unique_crashes] yields one crash for every signature among the
    crashes the generator yields, and no signature twice: each pair it
    yields holds a crash of the generator and that crash's signature. *)
Theorem unique_crashes_one_per_signature (tools : list string) (w : World) :
  fair_choice →
  ∃ all unique,
    (_fuzzmanager_get_crashes tools collect [] w).1 = Ok all ∧
    (_get_unique_crashes tools collect [] w).1 = Ok unique ∧
    NoDup (map fst unique) ∧
    (∀ sig r, (sig, r) ∈ unique → sig = signature r ∧ r ∈ all) ∧
    (∀ r, r ∈ all → signature r ∈ map fst unique).
Proof.
  intros Hfair. exists (crash_stream tools (events w)).
  unfold _get_unique_crashes, mbind, M_bind.
  rewrite !fuzzmanager_stream; first last.
  { done. }
  { intros [[seen rc] acc] x w0.
    assert (Hany : ∀ st, events (unique_step collect st x w0).2 = events w0); [|apply Hany].
    intros [[seen' rc'] acc']. unfold unique_step. case_bool_decide.
    - unfold mbind, M_bind, random_lt_select. by destruct (random_below_select _).
    - by destruct (dict_mem _ _). }
  rewrite for_each_collect.
  destruct (unique_fold (crash_stream tools (events w)) [] (∅, [], []) w)
    as ([[seen rc] acc] & w1 & -> & _ & Hseen & Hkeys & Hnd & Hacc & Hrc).
  { unfold unique_inv. cbn. split_and!.
    - intros sig. by rewrite elem_of_empty, elem_of_nil.
    - intros sig. by rewrite elem_of_empty, elem_of_nil.
    - constructor.
    - intros ?? Hin. by apply elem_of_nil in Hin.
    - intros ?? Hin. by apply elem_of_nil in Hin. }
  cbn in *.
  destruct (pick_fold rc Hfair (λ k rs Hin, proj1 (Hrc k rs Hin)) acc w1)
    as (picks & w2 & -> & Hpk & Hfrom).
  exists (acc ++ picks). cbn. split_and!; try done.
  - by rewrite map_app, Hpk.
  - intros sig r Hin. apply elem_of_app in Hin as [Hin|Hin]; [by apply Hacc|].
    destruct (Hfrom sig r Hin) as (rs & Hin' & Hr).
    by apply (proj2 (Hrc sig rs Hin')).
  - intros r Hr. rewrite map_app, Hpk, <- Hkeys, Hseen.
    apply elem_of_map. by exists r.
Qed.

End Unique.

(** ** The properties on the sample surroundings *)

Lemma dry_run_touches_nothing_witness :
  dry_run (sample_monitor true) = true ∧
  untouched start
    (@run seconds_clock sample_surroundings (sample_monitor true) start).2.
Proof.
  split; [reflexivity|].
  apply (@dry_run_touches_nothing seconds_clock sample_surroundings). reflexivity.
Defined.

Lemma run_returns_zero_witness :
  @fair_choice seconds_clock sample_surroundings ∧
  (@run seconds_clock sample_surroundings (sample_monitor false) start).1 = Ok 0%Z.
Proof.
  split; [intros k n Hn; cbn; lia|].
  apply (@run_returns_zero seconds_clock sample_surroundings).
  intros k n Hn. cbn. lia.
Defined.

Lemma only_unreduced_crashes_are_queued_witness :
  quality (of_unbucketed (sample_crash 13 "crash in bar" 6)) ≠ QUAL_UNREDUCED ∧
  @run_body seconds_clock sample_surroundings (sample_monitor false) tt
    ("grizzly:None:crash in bar:6"%string,
     of_unbucketed (sample_crash 13 "crash in bar" 6)) start
  = (Ok tt, log_event (Updated 13 QUAL_NOT_REPRODUCIBLE) start).
Proof.
  split; [cbn; discriminate|].
  apply (@only_unreduced_crashes_are_queued seconds_clock sample_surroundings
           (sample_monitor false)).
  cbn. discriminate.
Defined.

Lemma unique_crashes_one_per_signature_witness :
  @fair_choice seconds_clock sample_surroundings ∧
  ∃ all unique,
    (@_fuzzmanager_get_crashes seconds_clock sample_surroundings _
       [ "grizzly"%string ] collect [] start).1 = Ok all ∧
    (@_get_unique_crashes seconds_clock sample_surroundings _
       [ "grizzly"%string ] collect [] start).1 = Ok unique ∧
    NoDup (map fst unique) ∧
    (∀ sig r, (sig, r) ∈ unique → sig = signature r ∧ r ∈ all) ∧
    (∀ r, r ∈ all → signature r ∈ map fst unique).
Proof.
  split; [intros k n Hn; cbn; lia|].
  apply (@unique_crashes_one_per_signature seconds_clock sample_surroundings).
  intros k n Hn. cbn. lia.
Defined.

End MonitorProps.
